(** * MacShorty: link merge, resolution and redirect sequencing

    A shallow embedding of the link engine of the URL shortener:
    - [src/services/storage.ts]: the persistent store over [localStorage];
    - [src/App.tsx] and its later revision with the [NOT_FOUND] mode: the
      bootstrap sequence [initApp] (merge of the baseline [db.json] with the
      local store, hash resolution, redirect) and [refreshLinks];
    - the analytics collaborator ([initGA], [trackRedirect]).

    Conventions of the model.
    - A JavaScript string is the list of its UTF-16 code units ([list N]);
      [===] on strings is equality of these lists.
    - The [number] fields [createdAt] and [clicks] hold integers that are
      JavaScript numbers (doubles), written as [Z]. The comparison of two
      creation times orders them as the integers are ordered; the increment
      of a click count is the addition of doubles, which is exact only up
      to 2^53 ([addOne]).
    - [JSON.parse] gives a value of any shape, and the code uses it at a
      TypeScript type without a check ([Dyn]): a text that parses to a
      value of another shape ([null], a number, an object where an array is
      expected) is returned by the reads as it is, and the first member
      access or method call on it throws a [TypeError].
    - [localStorage] accepts every read and every write.
    - A [Map<string, ShortLink>] keeps its keys in insertion order, and
      [set] on a present key replaces the value in place: an association
      list.
    - Code that reads or writes browser state runs in a state monad with
      exceptions; an exception keeps the state reached when it was thrown. *)

From stdpp Require Import base option list sorting countable gmap strings.
From Stdlib Require Import ZArith NArith Ascii Lia.

Set Warnings "-clear-no-such-hyp".

Open Scope Z_scope.

(** ** JavaScript strings *)

Abbreviation jsstring := (list N).

(** The code units of an ASCII literal. *)
Fixpoint str (s : string) : jsstring :=
  match s with
  | EmptyString => []
  | String a s' => N_of_ascii a :: str s'
  end.

(** ** [decodeURIComponent]

    The builtin is not code of the repository; it is transcribed from the
    abstract operation Decode of ECMA-262 (with an empty set of preserved
    escapes). [None] stands for the [URIError] it throws. *)

Definition hexDigit (c : N) : option N :=
  if ((48 <=? c) && (c <=? 57))%N then Some (c - 48)%N
  else if ((65 <=? c) && (c <=? 70))%N then Some (c - 55)%N
  else if ((97 <=? c) && (c <=? 102))%N then Some (c - 87)%N
  else None.

Definition ParseHexOctet (h1 h2 : N) : option N :=
  match hexDigit h1, hexDigit h2 with
  | Some a, Some b => Some (16 * a + b)%N
  | _, _ => None
  end.

(** Number of leading 1 bits of an octet. *)
Definition leadingOnes (b : N) : nat :=
  if (b <? 128)%N then 0%nat
  else if (b <? 192)%N then 1%nat
  else if (b <? 224)%N then 2%nat
  else if (b <? 240)%N then 3%nat
  else if (b <? 248)%N then 4%nat
  else 5%nat.

Definition isContinuation (b : N) : bool := ((128 <=? b) && (b <? 192))%N.

Definition contBits (b : N) : N := N.land b 63.

(** The code point of a well-formed UTF-8 sequence of two to four octets:
    continuation octets in 80..BF, no overlong form, no surrogate, at most
    10FFFF. *)
Definition utf8CodePoint (octets : list N) : option N :=
  match octets with
  | [b0; b1] =>
      let v := (N.shiftl (N.land b0 31) 6 + contBits b1)%N in
      if isContinuation b1 && (128 <=? v)%N then Some v else None
  | [b0; b1; b2] =>
      let v := (N.shiftl (N.land b0 15) 12 + N.shiftl (contBits b1) 6
                + contBits b2)%N in
      if isContinuation b1 && isContinuation b2 && (2048 <=? v)%N
         && negb ((55296 <=? v) && (v <=? 57343))%N
      then Some v else None
  | [b0; b1; b2; b3] =>
      let v := (N.shiftl (N.land b0 7) 18 + N.shiftl (contBits b1) 12
                + N.shiftl (contBits b2) 6 + contBits b3)%N in
      if isContinuation b1 && isContinuation b2 && isContinuation b3
         && (65536 <=? v)%N && (v <=? 1114111)%N
      then Some v else None
  | _ => None
  end.

Definition UTF16EncodeCodePoint (v : N) : jsstring :=
  if (v <=? 65535)%N then [v]
  else [((v - 65536) / 1024 + 55296)%N; ((v - 65536) mod 1024 + 56320)%N].

(** Where the decoder stands: between characters, or inside a multi-octet
    character with [j] continuation escapes still to read. *)
Inductive DecodeState : Type :=
  | Idle
  | Need (j : nat) (octets : list N).

Fixpoint Decode (p : DecodeState) (s : jsstring) {struct s} : option jsstring :=
  match s with
  | [] => match p with Idle => Some [] | Need _ _ => None end
  | c :: rest =>
      if (c =? 37)%N then
        match rest with
        | h1 :: h2 :: rest' =>
            match ParseHexOctet h1 h2 with
            | None => None
            | Some b =>
                match p with
                | Idle =>
                    match leadingOnes b with
                    | O => cons b <$> Decode Idle rest'
                    | 1%nat => None
                    | S (S n) =>
                        if (n <=? 2)%nat then Decode (Need (S n) [b]) rest'
                        else None
                    end
                | Need j octets =>
                    match j with
                    | O => None
                    | 1%nat =>
                        match utf8CodePoint (octets ++ [b]) with
                        | Some v =>
                            app (UTF16EncodeCodePoint v) <$> Decode Idle rest'
                        | None => None
                        end
                    | S j' => Decode (Need j' (octets ++ [b])) rest'
                    end
                end
            end
        | _ => None
        end
      else
        match p with
        | Idle => cons c <$> Decode Idle rest
        | Need _ _ => None
        end
  end.

Definition decodeURIComponent (s : jsstring) : option jsstring := Decode Idle s.

(** ** The data model ([types.ts]) *)

Record ShortLink : Type := mkShortLink {
  id : jsstring;
  slug : jsstring;
  originalUrl : jsstring;
  description : option jsstring;
  createdAt : Z;
  clicks : Z;
  tags : option (list jsstring)
}.

#[global] Instance ShortLink_eq_dec : EqDecision ShortLink.
Proof. solve_decision. Defined.

Record AppSettings : Type := mkAppSettings {
  customBaseUrl : option jsstring;
  googleAnalyticsId : option jsstring
}.

#[global] Instance AppSettings_eq_dec : EqDecision AppSettings.
Proof. solve_decision. Defined.

(** The object literal [{}]. *)
Definition emptySettings : AppSettings :=
  {| customBaseUrl := None; googleAnalyticsId := None |}.

Definition ids (ls : list ShortLink) : list jsstring := id <$> ls.

(** ** [Map<string, ShortLink>] and [Array.prototype.sort] *)

Module JsMap.

Abbreviation t := (list (jsstring * ShortLink)).

Definition empty : t := [].

(** [m.set(k, v)]: a present key keeps its place and takes the new value,
    a new key goes last. *)
Fixpoint set (k : jsstring) (v : ShortLink) (m : t) : t :=
  match m with
  | [] => [(k, v)]
  | (k', v') :: m' =>
      if decide (k' = k) then (k, v) :: m' else (k', v') :: set k v m'
  end.

Fixpoint get (k : jsstring) (m : t) : option ShortLink :=
  match m with
  | [] => None
  | (k', v') :: m' => if decide (k' = k) then Some v' else get k m'
  end.

Definition keys (m : t) : list jsstring := m.*1.

(** [Array.from(m.values())] *)
Definition values (m : t) : list ShortLink := m.*2.

(** [ls.forEach(l => m.set(l.id, l))] *)
Definition setAll (ls : list ShortLink) (m : t) : t :=
  foldl (fun acc l => set (id l) l acc) m ls.

End JsMap.

Module JsArray.

Section Sort.
Context {A : Type} (cmp : A → A → Z).

(** [x] goes in front of the first element it must not follow. *)
Fixpoint insert (x : A) (l : list A) : list A :=
  match l with
  | [] => [x]
  | y :: l' => if decide (cmp x y ≤ 0) then x :: y :: l' else y :: insert x l'
  end.

(** [a.sort(cmp)]: the sort is stable (ECMAScript 2019), so for a
    consistent comparator its result is the one of this insertion sort. *)
Fixpoint sort (l : list A) : list A :=
  match l with
  | [] => []
  | x :: l' => insert x (sort l')
  end.

End Sort.

(** [a.find(p)]: the first element that satisfies [p]. *)
Fixpoint find {A : Type} (p : A → bool) (l : list A) : option A :=
  match l with
  | [] => None
  | x :: l' => if p x then Some x else find p l'
  end.

(** [a.findIndex(p)]: the index of that element, or -1. *)
Fixpoint findIndex {A : Type} (p : A → bool) (l : list A) : Z :=
  match l with
  | [] => -1
  | x :: l' =>
      if p x then 0
      else let i := findIndex p l' in if decide (0 ≤ i) then i + 1 else -1
  end.

(** [a.some(p)] *)
Definition some {A : Type} (p : A → bool) (l : list A) : bool := existsb p l.

(** [a.filter(p)] *)
Definition filter {A : Type} (p : A → bool) (l : list A) : list A :=
  List.filter p l.

End JsArray.

(** ** The dataset merge of [initApp] *)

(** [(a, b) => b.createdAt - a.createdAt] *)
Definition newestFirst (a b : ShortLink) : Z := createdAt b - createdAt a.

(** The mapping built from the baseline and then the local records. *)
Definition linkMap (staticLinks localLinks : list ShortLink) : JsMap.t :=
  JsMap.setAll localLinks (JsMap.setAll staticLinks JsMap.empty).

(** The merged view when [db.json] was fetched: the values of [linkMap],
    newest first. *)
Definition merge (staticLinks localLinks : list ShortLink) : list ShortLink :=
  JsArray.sort newestFirst (JsMap.values (linkMap staticLinks localLinks)).

(** ** Browser state and the monad of effects *)

Inductive JsError : Type :=
  | SyntaxError
  | URIError
  | TypeError.

Inductive Outcome (A : Type) : Type :=
  | Return (a : A)
  | Throw (e : JsError).
Arguments Return {A} a.
Arguments Throw {A} e.

(** What [fetch('./db.json')] settles to: a rejection, or a response with
    its [ok] flag and body. *)
Inductive FetchResult : Type :=
  | FetchRejected
  | Response (ok : bool) (body : jsstring).

(** The calls made to [window.gtag], as pushed on [window.dataLayer]. *)
Inductive GtagCall : Type :=
  | GtagJs
  | GtagConfig (measurementId : jsstring)
  | GtagEvent (slug target : jsstring)
  | GtagPageView (measurementId slug : jsstring).

(** A pending [setTimeout(() => window.location.replace(url), delay)]. *)
Record Timer : Type := mkTimer { delay : Z; replaceWith : jsstring }.

Record Browser : Type := mkBrowser {
  localStorage : gmap jsstring jsstring;
  console : list jsstring;
  href : jsstring;
  hash : jsstring;
  dbJson : FetchResult;
  confirmReply : bool;
  gtag : bool;
  headScripts : list jsstring;
  dataLayer : list GtagCall;
  timers : list Timer
}.

Definition JS (S A : Type) : Type := S → Outcome A * S.

Definition ret {S A} (a : A) : JS S A := λ s, (Return a, s).

Definition bind {S A B} (c : JS S A) (k : A → JS S B) : JS S B :=
  λ s, match c s with
       | (Return a, s') => k a s'
       | (Throw e, s') => (Throw e, s')
       end.

Definition throw {S A} (e : JsError) : JS S A := λ s, (Throw e, s).

(** [try { c } catch (e) { h e }] *)
Definition tryCatch {S A} (c : JS S A) (h : JsError → JS S A) : JS S A :=
  λ s, match c s with
       | (Return a, s') => (Return a, s')
       | (Throw e, s') => h e s'
       end.

Definition gets {S A} (f : S → A) : JS S A := λ s, (Return (f s), s).

Definition modify {S} (f : S → S) : JS S () := λ s, (Return (), f s).

Notation "x <- c ;; k" := (bind c (λ x, k))
  (at level 100, c at next level, right associativity).
Notation "c ;;; k" := (bind c (λ _, k))
  (at level 100, right associativity).

(** A string is truthy when it is neither [null] nor empty. *)
Definition truthy (o : option jsstring) : option jsstring :=
  match o with
  | Some [] => None
  | _ => o
  end.

(** ** JSON *)

(** [JSON.parse] returns a value of any shape, which the code then uses at
    a TypeScript type [A] without a check: [Shaped a] is a value of that
    type, [IllShaped] one on which the member accesses and method calls
    of the code throw a [TypeError]. Where [A] is an array type these are
    the values that are no arrays ([null], a number, a string, an object:
    none has a [find], [findIndex], [filter], [some], [forEach] or [sort]
    to call); where [A] is an object type it is [null]. The elements of
    an array are taken to be records. *)
Inductive Dyn (A : Type) : Type :=
  | Shaped (a : A)
  | IllShaped.
Arguments Shaped {A} a.
Arguments IllShaped {A}.

(** [v.member], for the members that the code uses. *)
Definition member {S A} (v : Dyn A) : JS S A :=
  match v with
  | Shaped a => ret a
  | IllShaped => throw TypeError
  end.

(** [JSON.stringify] and [JSON.parse] at one TypeScript type; [JSON_parse]
    is [None] where the builtin throws, and otherwise the value it returns,
    of the shape of the type or of another. *)
Class JSON (A : Type) : Type := {
  JSON_stringify : A → jsstring;
  JSON_parse : jsstring → option (Dyn A)
}.

(** A value written by [JSON.stringify] is read back by [JSON.parse], and
    its text is never the empty string. *)
Class JSONLaws (A : Type) `{JSON A} : Prop := {
  parse_stringify : ∀ a : A, JSON_parse (JSON_stringify a) = Some (Shaped a);
  stringify_nonempty : ∀ a : A, JSON_stringify a ≠ []
}.

Definition parseJSON {S A} `{JSON A} (text : jsstring) : JS S (Dyn A) :=
  match JSON_parse text with
  | Some v => ret v
  | None => throw SyntaxError
  end.

(** ** The persistent store ([services/storage.ts]) *)

Definition STORAGE_KEY : jsstring := str "macshorty_links_v1".
Definition SETTINGS_KEY : jsstring := str "macshorty_settings_v1".

Definition getItem (key : jsstring) : JS Browser (option jsstring) :=
  gets (λ b, localStorage b !! key).

Definition withLocalStorage (f : gmap jsstring jsstring → gmap jsstring jsstring)
    (b : Browser) : Browser :=
  mkBrowser (f (localStorage b)) (console b) (href b) (hash b) (dbJson b)
    (confirmReply b) (gtag b) (headScripts b) (dataLayer b) (timers b).

Definition setItem (key value : jsstring) : JS Browser () :=
  modify (withLocalStorage (insert key value)).

Definition consoleError (msg : jsstring) : JS Browser () :=
  modify (λ b, mkBrowser (localStorage b) (console b ++ [msg]) (href b) (hash b)
                 (dbJson b) (confirmReply b) (gtag b) (headScripts b)
                 (dataLayer b) (timers b)).

Section Storage.
Context `{JSON (list ShortLink)} `{JSON AppSettings}.

(** The value that [JSON.parse] gives is returned as it is, whatever its
    shape. *)
Definition getLinks : JS Browser (Dyn (list ShortLink)) :=
  tryCatch
    (stored <- getItem STORAGE_KEY ;;
     match truthy stored with
     | Some text => parseJSON text
     | None => ret (Shaped [])
     end)
    (λ e, consoleError (str "Failed to load links") ;;; ret (Shaped [])).

Definition saveLink (link : ShortLink) : JS Browser () :=
  stored <- getLinks ;;
  links <- member stored ;;
  let existingIndex :=
    JsArray.findIndex (λ l, bool_decide (id l = id link)) links in
  let links' :=
    if decide (0 ≤ existingIndex)
    then <[Z.to_nat existingIndex := link]> links
    else link :: links in
  setItem STORAGE_KEY (JSON_stringify links').

Definition deleteLink (id0 : jsstring) : JS Browser () :=
  stored <- getLinks ;;
  all <- member stored ;;
  let links := JsArray.filter (λ l, bool_decide (id l ≠ id0)) all in
  setItem STORAGE_KEY (JSON_stringify links).

(** [n + 1] in the arithmetic of JavaScript numbers (IEEE-754 doubles,
    rounded to the nearest, ties to the even significand), for an integer
    [n] that is a double. The sum is exact as long as it is at most 2^53
    in absolute value. From there to 2^54 the doubles are the even
    integers: n + 1 lies half way between n and n + 2, and goes to the one
    whose half is even. Beyond, n + 1 rounds back to n. *)
Definition addOne (n : Z) : Z :=
  if decide (Z.abs (n + 1) ≤ 2 ^ 53) then n + 1
  else if decide (Z.abs n < 2 ^ 54 ∧ n `mod` 4 = 2) then n + 2
  else n.

(** [link.clicks += 1] *)
Definition bumpClicks (link : ShortLink) : ShortLink :=
  mkShortLink (id link) (slug link) (originalUrl link) (description link)
    (createdAt link) (addOne (clicks link)) (tags link).

Definition incrementClicks (id0 : jsstring) : JS Browser () :=
  stored <- getLinks ;;
  links <- member stored ;;
  match JsArray.find (λ l, bool_decide (id l = id0)) links with
  | Some link => saveLink (bumpClicks link)
  | None => ret ()
  end.

Definition checkSlugExists (slug0 : jsstring) (excludeId : option jsstring)
    : JS Browser bool :=
  stored <- getLinks ;;
  links <- member stored ;;
  ret (JsArray.some
         (λ l, bool_decide (slug l = slug0)
               && bool_decide (Some (id l) ≠ excludeId)) links).

Definition getSettings : JS Browser (Dyn AppSettings) :=
  tryCatch
    (stored <- getItem SETTINGS_KEY ;;
     match truthy stored with
     | Some text => parseJSON text
     | None => ret (Shaped emptySettings)
     end)
    (λ e, ret (Shaped emptySettings)).

Definition saveSettings (settings : AppSettings) : JS Browser () :=
  setItem SETTINGS_KEY (JSON_stringify settings).

End Storage.

(** ** The analytics collaborator ([services/analytics.ts]) *)

Definition gtagPush (c : GtagCall) (b : Browser) : Browser :=
  mkBrowser (localStorage b) (console b) (href b) (hash b) (dbJson b)
    (confirmReply b) (gtag b) (headScripts b) (dataLayer b ++ [c]) (timers b).

Definition installGtag (src : jsstring) (b : Browser) : Browser :=
  mkBrowser (localStorage b) (console b) (href b) (hash b) (dbJson b)
    (confirmReply b) true (headScripts b ++ [src]) (dataLayer b) (timers b).

Definition initGA (measurementId : jsstring) : JS Browser () :=
  installed <- gets gtag ;;
  if bool_decide (measurementId = []) || installed then ret ()
  else
    modify (installGtag
              (str "https://www.googletagmanager.com/gtag/js?id=" ++ measurementId)) ;;;
    modify (gtagPush GtagJs) ;;;
    modify (gtagPush (GtagConfig measurementId)).

Definition trackRedirect (measurementId slug0 targetUrl : jsstring) : JS Browser () :=
  installed <- gets gtag ;;
  if negb installed then ret ()
  else
    modify (gtagPush (GtagEvent slug0 targetUrl)) ;;;
    modify (gtagPush (GtagPageView measurementId slug0)).

(** ** The application component ([App.tsx]) *)

(** The React state of the component that the engine reads and writes.
    [settings] holds what [getSettings] returned, whatever its shape. *)
Record AppState (Mode : Type) : Type := mkAppState {
  mode : Mode;
  links : list ShortLink;
  settings : Dyn AppSettings;
  detectedUrl : jsstring;
  isBlob : bool;
  redirectData : option (jsstring * jsstring)
}.
Arguments mkAppState {Mode}.
Arguments mode {Mode}.
Arguments links {Mode}.
Arguments settings {Mode}.
Arguments detectedUrl {Mode}.
Arguments isBlob {Mode}.
Arguments redirectData {Mode}.

Record World (Mode : Type) : Type := mkWorld {
  browser : Browser;
  app : AppState Mode
}.
Arguments mkWorld {Mode}.
Arguments browser {Mode}.
Arguments app {Mode}.

(** [useState] initial values. *)
Definition initialState {Mode} (m : Mode) : AppState Mode :=
  mkAppState m [] (Shaped emptySettings) [] false None.

Section Component.
Context {Mode : Type}.
Context `{JSON (list ShortLink)} `{JSON AppSettings}.

Definition liftB {A} (c : JS Browser A) : JS (World Mode) A :=
  λ w, match c (browser w) with (o, b') => (o, mkWorld b' (app w)) end.

Definition setApp (f : AppState Mode → AppState Mode) : JS (World Mode) () :=
  modify (λ w, mkWorld (browser w) (f (app w))).

Definition setMode (m : Mode) : JS (World Mode) () :=
  setApp (λ a, mkAppState m (links a) (settings a) (detectedUrl a) (isBlob a)
                 (redirectData a)).

(** [setLinks(prev => f prev)] *)
Definition setLinks (f : list ShortLink → list ShortLink) : JS (World Mode) () :=
  setApp (λ a, mkAppState (mode a) (f (links a)) (settings a) (detectedUrl a)
                 (isBlob a) (redirectData a)).

Definition setSettings (s : Dyn AppSettings) : JS (World Mode) () :=
  setApp (λ a, mkAppState (mode a) (links a) s (detectedUrl a) (isBlob a)
                 (redirectData a)).

Definition setDetectedUrl (u : jsstring) : JS (World Mode) () :=
  setApp (λ a, mkAppState (mode a) (links a) (settings a) u (isBlob a)
                 (redirectData a)).

Definition setIsBlob (v : bool) : JS (World Mode) () :=
  setApp (λ a, mkAppState (mode a) (links a) (settings a) (detectedUrl a) v
                 (redirectData a)).

Definition setRedirectData (target slug0 : jsstring) : JS (World Mode) () :=
  setApp (λ a, mkAppState (mode a) (links a) (settings a) (detectedUrl a)
                 (isBlob a) (Some (target, slug0))).

(** [setTimeout(() => window.location.replace(url), ms)] *)
Definition setTimeout (ms : Z) (url : jsstring) : JS (World Mode) () :=
  liftB (modify (λ b, mkBrowser (localStorage b) (console b) (href b) (hash b)
                        (dbJson b) (confirmReply b) (gtag b) (headScripts b)
                        (dataLayer b) (timers b ++ [mkTimer ms url]))).

(** [s.split(sep)[0]] for a one-character separator. *)
Fixpoint splitHead (sep : N) (s : jsstring) : jsstring :=
  match s with
  | [] => []
  | c :: s' => if (c =? sep)%N then [] else c :: splitHead sep s'
  end.

Fixpoint startsWith (s prefix : jsstring) : bool :=
  match prefix, s with
  | [], _ => true
  | p :: prefix', c :: s' => (c =? p)%N && startsWith s' prefix'
  | _ :: _, [] => false
  end.

(** [s.substring(1)] *)
Definition substring1 (s : jsstring) : jsstring := tail s.

(** Environment detection, the same in both revisions. *)
Definition detectEnvironment : JS (World Mode) () :=
  fullLocation <- liftB (gets href) ;;
  let cleanBase := splitHead 63 (splitHead 35 fullLocation) in
  setDetectedUrl cleanBase ;;;
  setIsBlob (startsWith fullLocation (str "blob:")).

(** The load of the data: the local store, merged with [db.json] when the
    fetch gives an [ok] response whose body parses; then sorted. The two
    [forEach] are inside the [try], the [sort] is after it. *)
Definition loadMergedLinks : JS (World Mode) (list ShortLink) :=
  local <- liftB getLinks ;;
  mergedLinks <-
    tryCatch
      (response <- liftB (gets dbJson) ;;
       match response with
       | FetchRejected => throw TypeError
       | Response true body =>
           json <- parseJSON body ;;
           staticLinks <- member json ;;
           let linkMap0 := JsMap.setAll staticLinks JsMap.empty in
           localLinks <- member local ;;
           let linkMap1 := JsMap.setAll localLinks linkMap0 in
           ret (Shaped (JsMap.values linkMap1))
       | Response false _ => ret local
       end)
      (λ e, ret local) ;;
  array <- member mergedLinks ;;
  ret (JsArray.sort newestFirst array).

(** [const match = mergedLinks.find(l => l.slug === hash)] *)
Definition findBySlug (hash0 : jsstring) (mergedLinks : list ShortLink)
    : option ShortLink :=
  JsArray.find (λ l, bool_decide (slug l = hash0)) mergedLinks.

(** [const hash = decodeURIComponent(rawHash)] followed by the lookup. *)
Definition resolve (rawHash : jsstring) (mergedLinks : list ShortLink)
    : JS (World Mode) (option ShortLink) :=
  match decodeURIComponent rawHash with
  | Some hash0 => ret (findBySlug hash0 mergedLinks)
  | None => throw URIError
  end.

(** The updater of [setLinks] calls [local.forEach]: on a value of
    another shape it throws, and the state stays as it was. *)
Definition refreshLinks : JS (World Mode) () :=
  local <- liftB getLinks ;;
  localLinks <- member local ;;
  setLinks (λ prev,
    let linkMap0 := JsMap.setAll prev JsMap.empty in
    let linkMap1 := JsMap.setAll localLinks linkMap0 in
    JsArray.sort newestFirst (JsMap.values linkMap1)).

Definition handleCreate (newLink : ShortLink) : JS (World Mode) () :=
  liftB (saveLink newLink) ;;;
  refreshLinks.

Definition handleDelete (id0 : jsstring) : JS (World Mode) () :=
  confirmed <- liftB (gets confirmReply) ;;
  if confirmed : bool then
    liftB (deleteLink id0) ;;;
    refreshLinks
  else ret ().

End Component.

(** *** [src/App.tsx] *)

Module App.

Inductive AppMode : Type :=
  | LOADING
  | DASHBOARD
  | REDIRECTING.

Section WithJSON.
Context `{JSON (list ShortLink)} `{JSON AppSettings}.

(** Steps 1 to 3 of [initApp]: settings, environment, data. *)
Definition loadAll : JS (World AppMode) (list ShortLink) :=
  loadedSettings <- liftB getSettings ;;
  setSettings loadedSettings ;;;
  detectEnvironment ;;;
  mergedLinks <- loadMergedLinks ;;
  setLinks (λ _, mergedLinks) ;;;
  ret mergedLinks.

(** Step 4 of [initApp]: the check for a redirect hash. In this revision a
    hash that matches no slug falls through to the dashboard. *)
Definition checkRedirectHash (mergedLinks : list ShortLink)
    : JS (World AppMode) () :=
  rawHash <- liftB (gets (λ b, substring1 (hash b))) ;;
  let dashboard := setMode DASHBOARD in
  match rawHash with
  | [] => dashboard
  | _ :: _ =>
      found <- resolve rawHash mergedLinks ;;
      match found with
      | Some m =>
          setRedirectData (originalUrl m) (slug m) ;;;
          setMode REDIRECTING ;;;
          liftB (incrementClicks (id m)) ;;;
          setTimeout 800 (originalUrl m)
      | None => dashboard
      end
  end.

Definition initApp : JS (World AppMode) () :=
  mergedLinks <- loadAll ;;
  checkRedirectHash mergedLinks.

Definition handleSaveSettings (newSettings : AppSettings) : JS (World AppMode) () :=
  liftB (saveSettings newSettings) ;;;
  setSettings (Shaped newSettings).

End WithJSON.

End App.

(** *** The revision of [App.tsx] with the [NOT_FOUND] mode and analytics *)

Module AppNotFound.

Inductive AppMode : Type :=
  | BOOTSTRAP
  | DASHBOARD
  | REDIRECT_PROCESS
  | NOT_FOUND.

Section WithJSON.
Context `{JSON (list ShortLink)} `{JSON AppSettings}.

(** Steps 1 and 2 of [initApp]: environment, settings (with the start of
    analytics), data. *)
Definition loadAll : JS (World AppMode) (AppSettings * list ShortLink) :=
  detectEnvironment ;;;
  loadedSettings <- liftB getSettings ;;
  setSettings loadedSettings ;;;
  object <- member loadedSettings ;;
  match truthy (googleAnalyticsId object) with
  | Some gaId => liftB (initGA gaId)
  | None => ret ()
  end ;;;
  mergedLinks <- loadMergedLinks ;;
  setLinks (λ _, mergedLinks) ;;;
  ret (object, mergedLinks).

(** Step 3 of [initApp]: the routing logic; [loadedSettings] is an
    object here, its first member access is in [loadAll]. *)
Definition routing (loadedSettings : AppSettings) (mergedLinks : list ShortLink)
    : JS (World AppMode) () :=
  rawHash <- liftB (gets (λ b, substring1 (hash b))) ;;
  match rawHash with
  | [] => setMode DASHBOARD
  | _ :: _ =>
      found <- resolve rawHash mergedLinks ;;
      match found with
      | Some m =>
          setRedirectData (originalUrl m) (slug m) ;;;
          setMode REDIRECT_PROCESS ;;;
          liftB (incrementClicks (id m)) ;;;
          match truthy (googleAnalyticsId loadedSettings) with
          | Some gaId => liftB (trackRedirect gaId (slug m) (originalUrl m))
          | None => ret ()
          end ;;;
          setTimeout 150 (originalUrl m)
      | None => setMode NOT_FOUND
      end
  end.

Definition initApp : JS (World AppMode) () :=
  loaded <- loadAll ;;
  routing loaded.1 loaded.2.

Definition handleSaveSettings (newSettings : AppSettings) : JS (World AppMode) () :=
  liftB (saveSettings newSettings) ;;;
  setSettings (Shaped newSettings) ;;;
  match truthy (googleAnalyticsId newSettings) with
  | Some gaId => liftB (initGA gaId)
  | None => ret ()
  end.

End WithJSON.

End AppNotFound.

(** *** The derived values of the component *)

Section Derived.
Context {Mode : Type}.

(** [const baseUrl = settings.customBaseUrl || detectedUrl], evaluated
    at each render. *)
Definition baseUrl (a : AppState Mode) : Outcome jsstring :=
  match settings a with
  | Shaped s =>
      Return match truthy (customBaseUrl s) with
             | Some url => url
             | None => detectedUrl a
             end
  | IllShaped => Throw TypeError
  end.

End Derived.

(** *** The creation form ([CreateLinkModal]) *)

(** What [handleSubmit] leaves in the form: the [error] text, or the
    [createdLink]. *)
Inductive SubmitResult : Type :=
  | Rejected (error : jsstring)
  | Created (link : ShortLink).

Section CreateLinkModal.
Context {Mode : Type}.
Context `{JSON (list ShortLink)}.

(** The record that [handleSubmit] builds; [uuid] and [now] stand for
    [crypto.randomUUID()] and [Date.now()]. *)
Definition newLinkOf (url slug0 description0 uuid : jsstring) (now : Z)
    : ShortLink :=
  mkShortLink uuid slug0
    (if startsWith url (str "http") then url else str "https://" ++ url)
    (Some match description0 with
          | [] => str "No Description"
          | _ :: _ => description0
          end)
    now 0 (Some []).

(** [handleSubmit] of the form; its [onSave] is [handleCreate]. *)
Definition handleSubmit (url slug0 description0 uuid : jsstring) (now : Z)
    : JS (World Mode) SubmitResult :=
  if bool_decide (url = []) || bool_decide (slug0 = []) then
    ret (Rejected (str "URL and Slug are required."))
  else
    taken <- liftB (checkSlugExists slug0 None) ;;
    if taken : bool then
      ret (Rejected (str "This short code is already taken. Try regenerating."))
    else
      let newLink := newLinkOf url slug0 description0 uuid now in
      handleCreate newLink ;;;
      ret (Created newLink).

End CreateLinkModal.

(** *** The settings form ([SettingsModal]) *)

Module SettingsModal.

(** The code units that [String.prototype.trim] strips: WhiteSpace and
    LineTerminator of ECMA-262. *)
Definition isWhiteSpace (c : N) : bool :=
  bool_decide (c ∈ [9; 10; 11; 12; 13; 32; 160; 5760; 8232; 8233; 8239; 8287;
                    12288; 65279]%N)
  || ((8192 <=? c) && (c <=? 8202))%N.

Fixpoint trimStart (s : jsstring) : jsstring :=
  match s with
  | [] => []
  | c :: s' => if isWhiteSpace c then trimStart s' else s
  end.

Definition trimEnd (s : jsstring) : jsstring := reverse (trimStart (reverse s)).

(** [s.trim()] *)
Definition trim (s : jsstring) : jsstring := trimEnd (trimStart s).

(** [s.endsWith(suffix)] *)
Definition endsWith (s suffix : jsstring) : bool :=
  startsWith (reverse s) (reverse suffix).

(** [s.slice(0, -1)] *)
Definition dropLast (s : jsstring) : jsstring := reverse (tail (reverse s)).

(** The normalisation of the custom base URL in [handleSubmit]. *)
Definition cleanUrl (customUrl : jsstring) : jsstring :=
  let cleaned := trim customUrl in
  let cleaned := if endsWith cleaned (str "/") then dropLast cleaned else cleaned in
  match cleaned with
  | [] => cleaned
  | _ :: _ =>
      if negb (startsWith cleaned (str "http")) then str "https://" ++ cleaned
      else cleaned
  end.

Section WithJSON.
Context `{JSON (list ShortLink)} `{JSON AppSettings}.

(** [handleSubmit] of the revisions of the form that hold the base URL
    only; [onSave] is [handleSaveSettings] of [src/App.tsx]. The form is
    drawn by a render of the component, which has evaluated [baseUrl]:
    its [settings] are an object. *)
Definition handleSubmit (current : AppSettings) (customUrl : jsstring)
    : JS (World App.AppMode) () :=
  App.handleSaveSettings
    (mkAppSettings (Some (cleanUrl customUrl)) (googleAnalyticsId current)).

(** [handleClear] of the same revisions. *)
Definition handleClear (current : AppSettings) : JS (World App.AppMode) () :=
  App.handleSaveSettings (mkAppSettings None (googleAnalyticsId current)).

End WithJSON.

End SettingsModal.

(** ** Vocabulary of the statements *)

(** The distinct elements of a list, each at its first occurrence. *)
Fixpoint firstOccurrences (l : list jsstring) : list jsstring :=
  match l with
  | [] => []
  | x :: l' => x :: filter (λ y, y ≠ x) (firstOccurrences l')
  end.

(** The records of [ls] with identifier [i], in the order of [ls]. *)
Definition withId (i : jsstring) (ls : list ShortLink) : list ShortLink :=
  filter (λ l, id l = i) ls.

(** The records of [ls] created at [t], in the order of [ls]. *)
Definition createdAtTime (t : Z) (ls : list ShortLink) : list ShortLink :=
  filter (λ l, createdAt l = t) ls.

(** Newest first. *)
Definition descending (ls : list ShortLink) : Prop :=
  StronglySorted (λ a b, createdAt b ≤ createdAt a) ls.

(** The result and the final state of a run. *)
Definition outcome {S A} (c : JS S A) (s : S) : Outcome A := (c s).1.
Definition run {S A} (c : JS S A) (s : S) : S := (c s).2.

(** What [getLinks] reads from the store. *)
Definition readLinks `{JSON (list ShortLink)} (b : Browser)
    : Dyn (list ShortLink) :=
  match outcome getLinks b with
  | Return v => v
  | Throw _ => Shaped []
  end.

(** The collection that the store holds: the array that [getLinks] reads
    from it, and no record when it reads no array. *)
Definition storedLinks `{JSON (list ShortLink)} (b : Browser) : list ShortLink :=
  match readLinks b with
  | Shaped ls => ls
  | IllShaped => []
  end.

(** The store reads as an array: its text is absent, empty, one on which
    [JSON.parse] throws, or that of an array. *)
Definition shapedLinks `{JSON (list ShortLink)} (b : Browser) : Prop :=
  readLinks b = Shaped (storedLinks b).

(** The record on which the store operations act for an identifier: the
    first one that carries it. *)
Definition firstWithId (i : jsstring) (ls : list ShortLink) : option ShortLink :=
  JsArray.find (λ l, bool_decide (id l = i)) ls.

(** [link] put in the place of the first record with its identifier. *)
Fixpoint replaceFirst (link : ShortLink) (ls : list ShortLink) : list ShortLink :=
  match ls with
  | [] => []
  | x :: ls' =>
      if decide (id x = id link) then link :: ls' else x :: replaceFirst link ls'
  end.

(** The collection after [incrementClicks i]. *)
Definition bumpFirst (i : jsstring) (ls : list ShortLink) : list ShortLink :=
  match firstWithId i ls with
  | Some r => replaceFirst (bumpClicks r) ls
  | None => ls
  end.

(** [r] with its [clicks] raised by [n]. *)
Definition addClicks (n : Z) (r : ShortLink) : ShortLink :=
  mkShortLink (id r) (slug r) (originalUrl r) (description r) (createdAt r)
    (clicks r + n) (tags r).



(** ** A codec to run the model on concrete stores

    The statements below hold for every codec with the laws of [JSONLaws];
    this one serves to evaluate the model where a concrete store is needed.
    The text of a value is the letter b followed by binary digits, not
    JSON's; the text [null] parses to a value of another shape, as it
    does for [JSON.parse]; every other text fails to parse. *)

Module Sample.

#[global] Instance ShortLink_countable : Countable ShortLink.
Proof.
  apply (inj_countable'
           (λ l, (id l, slug l, originalUrl l, description l, createdAt l,
                  clicks l, tags l))
           (λ '(i, s, u, d, t, c, g), mkShortLink i s u d t c g)).
  by intros [].
Defined.

#[global] Instance AppSettings_countable : Countable AppSettings.
Proof.
  apply (inj_countable' (λ s, (customBaseUrl s, googleAnalyticsId s))
           (λ '(u, g), mkAppSettings u g)).
  by intros [].
Defined.

Fixpoint bits (p : positive) : jsstring :=
  match p with
  | xH => []
  | xO p' => 48%N :: bits p'
  | xI p' => 49%N :: bits p'
  end.

Fixpoint unbits (s : jsstring) : option positive :=
  match s with
  | [] => Some xH
  | c :: s' =>
      match unbits s' with
      | Some p =>
          if (c =? 48)%N then Some (xO p)
          else if (c =? 49)%N then Some (xI p)
          else None
      | None => None
      end
  end.

Definition write {A} `{Countable A} (a : A) : jsstring :=
  98%N :: bits (encode a).

(** The text [null] reads as a value of another shape. *)
Definition read {A} `{Countable A} (s : jsstring) : option (Dyn A) :=
  match s with
  | 98%N :: s' =>
      match unbits s' with
      | Some p => Shaped <$> decode p
      | None => None
      end
  | _ => if decide (s = str "null") then Some IllShaped else None
  end.

#[global] Instance links_JSON : JSON (list ShortLink) :=
  {| JSON_stringify := write; JSON_parse := read |}.

#[global] Instance settings_JSON : JSON AppSettings :=
  {| JSON_stringify := write; JSON_parse := read |}.

(** Scenario data: a link with the given identifier, slug, creation time
    and click count. *)
Definition link (i s : string) (t c : Z) : ShortLink :=
  mkShortLink (str i) (str s) (str "https://x.com") None t c None.

(** A browser whose store holds [store] under the links key (nothing when
    [None]), at the address fragment [fragment]. *)
Definition browserWith (store : option jsstring) (fragment : string)
    (db : FetchResult) : Browser :=
  mkBrowser
    (match store with
     | Some text => {[ STORAGE_KEY := text ]}
     | None => ∅
     end)
    [] (str "https://host/app/" ++ str fragment) (str fragment) db true false
    [] [] [].

Definition worldWith {Mode} (m : Mode) (store : option jsstring)
    (fragment : string) (db : FetchResult) : World Mode :=
  mkWorld (browserWith store fragment db) (initialState m).

(** The baseline and the local store of the scenarios. *)
Definition baseline : list ShortLink := [link "1" "abc" 100 0].
Definition localStore : list ShortLink := [link "1" "abc" 100 5].

(** A bootstrap of the revision with [NOT_FOUND], over that baseline and
    that local store, at the given fragment. *)
Definition bootstrapAt (fragment : string) : World AppNotFound.AppMode :=
  worldWith AppNotFound.BOOTSTRAP (Some (write localStore)) fragment
    (Response true (write baseline)).

(** The same bootstrap in [src/App.tsx]. *)
Definition loadingAt (fragment : string) : World App.AppMode :=
  worldWith App.LOADING (Some (write localStore)) fragment
    (Response true (write baseline)).

(** A store with two records, one whose text does not parse, and one
    whose text is [null]. *)
Definition twoLinks : list ShortLink := [link "1" "abc" 100 5; link "2" "x" 50 0].
Definition storeOfTwo : Browser :=
  browserWith (Some (write twoLinks)) "" FetchRejected.
Definition brokenStore : Browser :=
  mkBrowser {[ STORAGE_KEY := str "{]"; SETTINGS_KEY := str "{]" ]}
    [] [] [] FetchRejected true false [] [] [].
Definition nullStore : Browser :=
  mkBrowser {[ STORAGE_KEY := str "null"; SETTINGS_KEY := str "null" ]}
    [] [] [] FetchRejected true false [] [] [].

(** A store whose one record has been followed 2^53 times. *)
Definition worn : ShortLink := link "1" "abc" 100 (2 ^ 53).

Definition nullLinksAt (fragment : string) : World AppNotFound.AppMode :=
  worldWith AppNotFound.BOOTSTRAP (Some (str "null")) fragment
    (Response true (write baseline)).

(** A snapshot in which two records share a slug. *)
Definition sharedSlug : list ShortLink :=
  [link "1" "x" 300 0; link "2" "a b" 200 0; link "3" "a b" 100 0].

(** The same, on a dashboard that shows [view]. *)
Definition worldShowing {Mode} (m : Mode) (view : list ShortLink)
    (store : option jsstring) : World Mode :=
  mkWorld (browserWith store "" FetchRejected)
    (mkAppState m view (Shaped emptySettings) [] false None).

End Sample.

(** A computation that leaves the links of the view as they are. *)
Definition keepsLinks {Mode A} (c : JS (World Mode) A) : Prop :=
  ∀ w, links (app (run c w)) = links (app w).

(** A map in which every value sits under its own identifier. *)
Definition keyed (m : JsMap.t) : Prop := Forall (λ kv, id kv.2 = kv.1) m.

(** The records of [ls] that carry another identifier than [i]: the
    collection after [deleteLink i]. *)
Definition without (i : jsstring) (ls : list ShortLink) : list ShortLink :=
  filter (λ l, id l ≠ i) ls.

(** The collection after [saveLink link]. *)
Definition upsert (link : ShortLink) (ls : list ShortLink) : list ShortLink :=
  match firstWithId (id link) ls with
  | Some _ => replaceFirst link ls
  | None => link :: ls
  end.

(** What [getSettings] reads from the store. *)
Definition readSettings `{JSON AppSettings} (b : Browser) : Dyn AppSettings :=
  match outcome getSettings b with
  | Return v => v
  | Throw _ => Shaped emptySettings
  end.

(** The settings that the store holds: the object that [getSettings]
    reads from it, and the empty one when it reads no object. *)
Definition storedSettings `{JSON AppSettings} (b : Browser) : AppSettings :=
  match readSettings b with
  | Shaped s => s
  | IllShaped => emptySettings
  end.

(** The store reads as a settings object. *)
Definition shapedSettings `{JSON AppSettings} (b : Browser) : Prop :=
  readSettings b = Shaped (storedSettings b).

(** [b] after [console.error] was called once for each of [msgs]. *)
Definition logged (msgs : list jsstring) (b : Browser) : Browser :=
  mkBrowser (localStorage b) (console b ++ msgs) (href b) (hash b) (dbJson b)
    (confirmReply b) (gtag b) (headScripts b) (dataLayer b) (timers b).

(** The messages that a read of the links logs. *)
Definition readErrors `{JSON (list ShortLink)} (b : Browser) : list jsstring :=
  match truthy (localStorage b !! STORAGE_KEY) with
  | Some text =>
      match JSON_parse (A := list ShortLink) text with
      | Some _ => []
      | None => [str "Failed to load links"]
      end
  | None => []
  end.


(** The slugs of a collection. *)
Definition slugs (ls : list ShortLink) : list jsstring := slug <$> ls.

(** The snapshot that the bootstrap takes in the browser state [b] when
    the store reads as an array: the merge when [db.json] came with an
    [ok] response and a body that parses to an array, the local store
    otherwise; sorted in both cases. *)
Definition snapshotOf `{JSON (list ShortLink)} (b : Browser) : list ShortLink :=
  JsArray.sort newestFirst
    match dbJson b with
    | Response true body =>
        match JSON_parse body with
        | Some (Shaped staticLinks) =>
            JsMap.values (linkMap staticLinks (storedLinks b))
        | _ => storedLinks b
        end
    | _ => storedLinks b
    end.

(** The browser after the bootstrap has started analytics for the
    settings [s]. *)
Definition analyticsStarted (s : AppSettings) (b : Browser) : Browser :=
  match truthy (googleAnalyticsId s) with
  | Some gaId => run (initGA gaId) b
  | None => b
  end.

(** The script that [initGA] loads for a measurement identifier. *)
Definition gtagScript (measurementId : jsstring) : jsstring :=
  str "https://www.googletagmanager.com/gtag/js?id=" ++ measurementId.

(** More scenario data. *)

Module MoreSamples.
Import Sample.

(** A record that the store of two does not hold, and one that replaces
    its first record. *)
Definition thirdLink : ShortLink := link "3" "new" 300 0.

(** A dashboard that shows the store of two. *)
Definition dashboard : World AppNotFound.AppMode :=
  worldShowing AppNotFound.DASHBOARD twoLinks (Some (write twoLinks)).


(** A dashboard of [src/App.tsx]. *)
Definition earlierDashboard : World App.AppMode :=
  worldShowing App.DASHBOARD twoLinks (Some (write twoLinks)).

(** A bootstrap whose local store is empty: the record of the baseline is
    the only one. *)
Definition baselineOnlyAt (fragment : string) : World AppNotFound.AppMode :=
  worldWith AppNotFound.BOOTSTRAP None fragment (Response true (write baseline)).


(** A browser in which [gtag] is defined. *)
Definition withGtag : Browser :=
  mkBrowser ∅ [] [] [] FetchRejected true true [] [] [].

(** Settings with a measurement identifier. *)
Definition measured : AppSettings := mkAppSettings None (Some (str "G-1")).

End MoreSamples.

(** * Properties *)

(** ** Lists *)

Section ListFacts.
Context {A : Type} (P : A → Prop) `{!∀ x, Decision (P x)}.

Lemma filter_all (l : list A) : (∀ x, x ∈ l → P x) → filter P l = l.
Proof.
  induction l as [|x l IH]; intros Hall; [done |].
  rewrite filter_cons_True by (apply Hall; set_solver).
  f_equal. apply IH. intros y Hy. apply Hall. set_solver.
Qed.

Lemma filter_none (l : list A) : (∀ x, x ∈ l → ¬ P x) → filter P l = [].
Proof.
  induction l as [|x l IH]; intros Hnone; [done |].
  rewrite filter_cons_False by (apply Hnone; set_solver).
  apply IH. intros y Hy. apply Hnone. set_solver.
Qed.

End ListFacts.

(** ** The insertion-ordered map *)

Module JsMapFacts.
Import JsMap.

Lemma keys_set k v m :
  keys (set k v m) = if decide (k ∈ keys m) then keys m else keys m ++ [k].
Proof.
  unfold keys. induction m as [|[k' v'] m IH]; csimpl; [done |].
  destruct (decide (k' = k)) as [->|Hne]; csimpl.
  - rewrite decide_True by set_solver. done.
  - rewrite IH. destruct (decide (k ∈ m.*1)) as [Hin|Hnin].
    + rewrite decide_True by set_solver. done.
    + rewrite decide_False by set_solver. done.
Qed.

Lemma get_set_eq k v m : get k (set k v m) = Some v.
Proof.
  induction m as [|[k' v'] m IH]; simpl.
  - by rewrite decide_True.
  - destruct (decide (k' = k)) as [->|Hne]; simpl.
    + by rewrite decide_True.
    + by rewrite decide_False.
Qed.

Lemma get_set_ne k k' v m : k ≠ k' → get k' (set k v m) = get k' m.
Proof.
  intros Hne. induction m as [|[k0 v0] m IH]; simpl.
  - by rewrite decide_False.
  - destruct (decide (k0 = k)) as [->|Hne0]; simpl.
    + by rewrite !decide_False.
    + by rewrite IH.
Qed.

Lemma get_None k m : get k m = None ↔ k ∉ keys m.
Proof.
  unfold keys. induction m as [|[k' v'] m IH]; simpl.
  - rewrite elem_of_nil. naive_solver.
  - rewrite elem_of_cons. destruct (decide (k' = k)); naive_solver.
Qed.

Lemma get_Some_elem k v m : get k m = Some v → (k, v) ∈ m.
Proof.
  induction m as [|[k' v'] m IH]; simpl; [done |].
  destruct (decide (k' = k)) as [->|Hne]; intros Hg.
  - injection Hg as ->. by left.
  - right. by apply IH.
Qed.

Lemma elem_get k v m : NoDup (keys m) → (k, v) ∈ m → get k m = Some v.
Proof.
  unfold keys. induction m as [|[k' v'] m IH]; simpl.
  - intros _ Hin. by apply elem_of_nil in Hin.
  - rewrite NoDup_cons, elem_of_cons. intros [Hnin Hnd] [Heq|Hin].
    + injection Heq as -> ->. by rewrite decide_True.
    + rewrite decide_False; [by apply IH |].
      intros ->. apply Hnin. apply list_elem_of_fmap. by exists (k, v).
Qed.

Lemma keyed_set v m : keyed m → keyed (set (id v) v m).
Proof.
  unfold keyed. induction m as [|[k' v'] m IH]; simpl; intros Hk.
  - by repeat constructor.
  - apply Forall_cons in Hk as [Hhd Htl].
    destruct (decide (k' = id v)); constructor; auto.
Qed.

Lemma NoDup_keys_set k v m : NoDup (keys m) → NoDup (keys (set k v m)).
Proof.
  intros Hnd. rewrite keys_set. case_decide; [done |].
  apply NoDup_app. split_and!; [done | | apply NoDup_singleton].
  intros x Hx. rewrite list_elem_of_singleton. by intros ->.
Qed.

Lemma keyed_ids m : keyed m → ids (values m) = keys m.
Proof.
  unfold keyed, ids, values, keys.
  induction 1 as [|[k v] m Hkv _ IH]; csimpl; [done |].
  simpl in Hkv. by f_equal.
Qed.

(** A map with distinct keys is determined by the order of its keys and the
    value found under each. *)
Lemma map_ext m1 m2 :
  NoDup (keys m1) → keys m1 = keys m2 → (∀ k, get k m1 = get k m2) → m1 = m2.
Proof.
  unfold keys. revert m2.
  induction m1 as [|[k1 v1] m1 IH]; intros [|[k2 v2] m2]; csimpl; try done.
  rewrite NoDup_cons. intros [Hnin Hnd] [= <- Hks] Hget.
  pose proof (Hget k1) as Hk. rewrite !decide_True in Hk by done.
  injection Hk as <-. f_equal. apply IH; [done | done |].
  intros k. specialize (Hget k). destruct (decide (k1 = k)) as [<-|Hne]; [|done].
  transitivity (@None ShortLink); [|symmetry].
  - by apply get_None.
  - apply get_None. unfold keys. by rewrite <-Hks.
Qed.

Lemma setAll_cons l ls m : setAll (l :: ls) m = setAll ls (set (id l) l m).
Proof. done. Qed.

Lemma keyed_setAll ls m : keyed m → keyed (setAll ls m).
Proof.
  revert m. induction ls as [|l ls IH]; intros m Hk; [done |].
  rewrite setAll_cons. by apply IH, keyed_set.
Qed.

Lemma NoDup_keys_setAll ls m : NoDup (keys m) → NoDup (keys (setAll ls m)).
Proof.
  revert m. induction ls as [|l ls IH]; intros m Hk; [done |].
  rewrite setAll_cons. by apply IH, NoDup_keys_set.
Qed.

(** The keys after a [forEach]: the old keys, then the new identifiers in
    the order of their first occurrence. *)
Lemma keys_setAll ls m :
  keys (setAll ls m)
  = keys m ++ filter (λ i, i ∉ keys m) (firstOccurrences (ids ls)).
Proof.
  revert m. induction ls as [|l ls IH]; intros m.
  - simpl. by rewrite app_nil_r.
  - rewrite setAll_cons, IH, keys_set. simpl.
    destruct (decide (id l ∈ keys m)) as [Hin|Hnin].
    + rewrite filter_cons_False by naive_solver. f_equal.
      rewrite list_filter_filter. apply list_filter_iff.
      intros x. split; [|naive_solver].
      intros Hx. split; [done | by intros ->].
    + rewrite filter_cons_True by done. rewrite <-(assoc_L (++)).
      csimpl. do 2 f_equal.
      rewrite list_filter_filter. apply list_filter_iff.
      intros x. rewrite not_elem_of_app, list_elem_of_singleton. naive_solver.
Qed.

(** The value under a key after a [forEach]: the last record with that
    identifier, or the old value when there is none. *)
Lemma get_setAll k ls m :
  get k (setAll ls m) = from_option Some (get k m) (last (withId k ls)).
Proof.
  unfold withId. revert m. induction ls as [|l ls IH]; intros m; [done |].
  rewrite setAll_cons, IH.
  destruct (decide (id l = k)) as [<-|Hne].
  - rewrite filter_cons_True by done. rewrite last_cons, get_set_eq.
    by destruct (last _).
  - rewrite filter_cons_False by done. by rewrite get_set_ne.
Qed.

End JsMapFacts.

(** ** The stable sort *)

Module JsArrayFacts.
Import JsArray.

Section Generic.
Context {A : Type} (cmp : A → A → Z).

Lemma insert_perm x l : insert cmp x l ≡ₚ x :: l.
Proof.
  induction l as [|y l IH]; csimpl; [done |].
  case_decide; [done |]. rewrite IH. apply Permutation_swap.
Qed.

Lemma sort_perm l : sort cmp l ≡ₚ l.
Proof.
  induction l as [|x l IH]; csimpl; [done |].
  by rewrite insert_perm, IH.
Qed.

End Generic.

Lemma insert_descending x l :
  descending l → descending (insert newestFirst x l).
Proof.
  unfold descending, newestFirst.
  induction l as [|y l IH]; csimpl; intros Hl.
  - repeat constructor.
  - apply StronglySorted_inv in Hl as [Hl Hy]. case_decide as Hxy.
    + constructor; [by constructor |].
      constructor; [lia |].
      eapply Forall_impl; [exact Hy |]. simpl. intros z Hz. lia.
    + constructor; [by apply IH |].
      rewrite (insert_perm _ x l). constructor; [lia | done].
Qed.

Lemma sort_descending l : descending (sort newestFirst l).
Proof.
  induction l as [|x l IH]; csimpl.
  - constructor.
  - by apply insert_descending.
Qed.

(** Stability: the insertion leaves the records of one creation time in
    their order, the inserted one first. *)
Lemma createdAtTime_insert t x l :
  createdAtTime t (insert newestFirst x l) = createdAtTime t (x :: l).
Proof.
  unfold createdAtTime, newestFirst.
  induction l as [|y l IH]; csimpl; [done |].
  case_decide as Hxy; [done |].
  rewrite (filter_cons _ y), IH, !(filter_cons _ x), !(filter_cons _ y).
  repeat case_decide; try done; lia.
Qed.

Lemma sort_stable t l :
  createdAtTime t (sort newestFirst l) = createdAtTime t l.
Proof.
  induction l as [|x l IH]; csimpl; [done |].
  rewrite createdAtTime_insert. unfold createdAtTime in *.
  by rewrite !(filter_cons _ x), IH.
Qed.

(** A list that is already newest-first is left as it is. *)
Lemma sort_descending_id l : descending l → sort newestFirst l = l.
Proof.
  unfold descending. induction 1 as [|x l Hl IH Hx]; csimpl; [done |].
  rewrite IH. destruct l as [|y l']; csimpl; [done |].
  apply Forall_cons in Hx as [Hy _].
  unfold newestFirst. rewrite decide_True by lia. done.
Qed.

(** A newest-first list is determined by the order it gives to the records
    of each creation time. *)
Lemma descending_determined l1 l2 :
  descending l1 → descending l2 →
  (∀ t, createdAtTime t l1 = createdAtTime t l2) → l1 = l2.
Proof.
  unfold descending, createdAtTime. revert l2.
  induction l1 as [|x l1 IH]; intros [|y l2] Hd1 Hd2 Heq; [done | | |].
  - specialize (Heq (createdAt y)). by rewrite filter_cons_True in Heq.
  - specialize (Heq (createdAt x)). by rewrite filter_cons_True in Heq.
  - apply StronglySorted_inv in Hd1 as [Hd1 Hx].
    apply StronglySorted_inv in Hd2 as [Hd2 Hy].
    rewrite Forall_forall in Hx, Hy.
    assert (createdAt x ≤ createdAt y) as Hxy.
    { assert (x ∈ createdAtTime (createdAt x) (y :: l2)) as Hin.
      { unfold createdAtTime. rewrite <-Heq, filter_cons_True by done.
        set_solver. }
      apply list_elem_of_filter in Hin as [_ [->|Hin]%elem_of_cons];
        [lia | by apply Hy]. }
    assert (createdAt y ≤ createdAt x) as Hyx.
    { assert (y ∈ createdAtTime (createdAt y) (x :: l1)) as Hin.
      { unfold createdAtTime. rewrite Heq, filter_cons_True by done.
        set_solver. }
      apply list_elem_of_filter in Hin as [_ [->|Hin]%elem_of_cons];
        [lia | by apply Hx]. }
    assert (x = y) as <-.
    { specialize (Heq (createdAt x)).
      rewrite !filter_cons_True in Heq by lia. congruence. }
    f_equal. apply IH; [done | done |].
    intros t. specialize (Heq t). rewrite !filter_cons in Heq.
    case_decide; congruence.
Qed.

(** The result of the sort does not depend on the algorithm: every list
    that is newest first and keeps, for each creation time, the order of
    the input is the list [sort] returns. *)
Lemma sort_unique l l' :
  descending l' →
  (∀ t, createdAtTime t l' = createdAtTime t l) →
  l' = sort newestFirst l.
Proof.
  intros Hd Hstable. apply descending_determined;
    [done | apply sort_descending |].
  intros t. by rewrite sort_stable.
Qed.

End JsArrayFacts.

(** ** The dataset merge *)

Section MergeFacts.
Import JsMap JsMapFacts JsArrayFacts.

Lemma elem_of_firstOccurrences x l : x ∈ firstOccurrences l ↔ x ∈ l.
Proof.
  induction l as [|y l IH]; csimpl; [done |].
  rewrite !elem_of_cons, list_elem_of_filter, IH.
  destruct (decide (x = y)); naive_solver.
Qed.

Lemma NoDup_firstOccurrences l : NoDup (firstOccurrences l).
Proof.
  induction l as [|y l IH]; csimpl; [constructor |].
  apply NoDup_cons. split.
  - rewrite list_elem_of_filter. naive_solver.
  - by apply NoDup_filter.
Qed.

Lemma firstOccurrences_NoDup l : NoDup l → firstOccurrences l = l.
Proof.
  induction 1 as [|x l Hx Hl IH]; csimpl; [done |].
  rewrite IH. f_equal. apply filter_all. intros y Hy ->. done.
Qed.

Lemma keyed_empty : keyed empty.
Proof. constructor. Qed.

Lemma keys_setAll_empty ls : keys (setAll ls empty) = firstOccurrences (ids ls).
Proof.
  rewrite keys_setAll. csimpl. apply filter_all.
  intros x _. apply not_elem_of_nil.
Qed.

Lemma keys_linkMap B L :
  keys (linkMap B L)
  = firstOccurrences (ids B)
    ++ filter (λ i, i ∉ ids B) (firstOccurrences (ids L)).
Proof.
  unfold linkMap. rewrite keys_setAll, keys_setAll_empty. f_equal.
  apply list_filter_iff. intros x. by rewrite elem_of_firstOccurrences.
Qed.

Lemma keyed_linkMap B L : keyed (linkMap B L).
Proof. unfold linkMap. apply keyed_setAll, keyed_setAll, keyed_empty. Qed.

Lemma NoDup_keys_linkMap B L : NoDup (keys (linkMap B L)).
Proof.
  unfold linkMap. apply NoDup_keys_setAll, NoDup_keys_setAll. constructor.
Qed.

Lemma ids_values_linkMap B L : ids (values (linkMap B L)) = keys (linkMap B L).
Proof. apply keyed_ids, keyed_linkMap. Qed.

Lemma elem_of_keys_linkMap i B L :
  i ∈ keys (linkMap B L) ↔ i ∈ ids B ∨ i ∈ ids L.
Proof.
  rewrite keys_linkMap, elem_of_app, list_elem_of_filter,
    !elem_of_firstOccurrences.
  destruct (decide (i ∈ ids B)); naive_solver.
Qed.

Lemma merge_perm B L : merge B L ≡ₚ values (linkMap B L).
Proof. apply sort_perm. Qed.

Lemma ids_merge_perm B L : ids (merge B L) ≡ₚ keys (linkMap B L).
Proof.
  rewrite <-ids_values_linkMap. unfold ids. by rewrite merge_perm.
Qed.

Lemma NoDup_ids_merge B L : NoDup (ids (merge B L)).
Proof. rewrite ids_merge_perm. apply NoDup_keys_linkMap. Qed.

Lemma merge_descending B L : descending (merge B L).
Proof. apply sort_descending. Qed.

(** Under distinct identifiers, a record is the only one with its
    identifier. *)
Lemma withId_NoDup r ls : NoDup (ids ls) → r ∈ ls → withId (id r) ls = [r].
Proof.
  unfold withId, ids. induction ls as [|x ls IH]; csimpl.
  - intros _ Hr. by apply elem_of_nil in Hr.
  - rewrite NoDup_cons, elem_of_cons. intros [Hx Hnd] [->|Hr].
    + rewrite filter_cons_True by done. f_equal.
      apply filter_none. intros y Hy Hid. apply Hx. rewrite <-Hid.
      by apply list_elem_of_fmap_2.
    + rewrite filter_cons_False; [by apply IH |].
      intros Hid. apply Hx. rewrite Hid. by apply list_elem_of_fmap_2.
Qed.

Lemma last_withId_Some i ls :
  i ∈ ids ls → ∃ r, last (withId i ls) = Some r.
Proof.
  unfold ids, withId. intros (r & -> & Hr)%list_elem_of_fmap.
  destruct (last (filter (λ l, id l = id r) ls)) as [r'|] eqn:Hlast; [eauto |].
  apply last_None in Hlast.
  assert (r ∈ filter (λ l, id l = id r) ls) as Hin
    by by apply list_elem_of_filter.
  rewrite Hlast in Hin. by apply elem_of_nil in Hin.
Qed.

Lemma last_withId_elem i ls r :
  last (withId i ls) = Some r → r ∈ ls ∧ id r = i.
Proof.
  unfold withId. intros Hlast.
  assert (r ∈ filter (λ l, id l = i) ls) as Hin.
  { apply last_Some in Hlast as [l' ->]. set_solver. }
  apply list_elem_of_filter in Hin. naive_solver.
Qed.

(** The record that the merge holds under an identifier of the local
    sequence is the last local record with that identifier. *)
Lemma get_linkMap_local B L i r :
  last (withId i L) = Some r → get i (linkMap B L) = Some r.
Proof. intros Hlast. unfold linkMap. by rewrite get_setAll, Hlast. Qed.

Lemma get_elem_values i r m : get i m = Some r → r ∈ values m.
Proof.
  intros Hg%get_Some_elem. unfold values.
  apply list_elem_of_fmap. by exists (i, r).
Qed.

End MergeFacts.

Section MergeTheorems.
Import JsMap JsMapFacts JsArrayFacts.

(** C1. Local wins: for an identifier present in both the baseline [B] and
    the local sequence [L], the merged view holds exactly one record with
    that identifier, and it is a record of [L], equal to it in every field
    ([clicks] included): the one [L] holds last under that identifier, hence
    the only one when the identifiers of [L] are distinct. *)
Theorem merge_local_wins (B L : list ShortLink) (i : jsstring) :
  i ∈ ids B → i ∈ ids L →
  ∃ r, withId i (merge B L) = [r]
       ∧ last (withId i L) = Some r
       ∧ r ∈ L
       ∧ (NoDup (ids L) → withId i L = [r]).
Proof.
  intros _ HL. destruct (last_withId_Some i L HL) as [r Hlast].
  destruct (last_withId_elem _ _ _ Hlast) as [HrL Hid].
  exists r. split_and!; [| done | done |].
  - rewrite <-Hid. apply withId_NoDup; [apply NoDup_ids_merge |].
    rewrite merge_perm. apply (get_elem_values i).
    by apply get_linkMap_local.
  - intros Hnd. rewrite <-Hid. by apply withId_NoDup.
Qed.

(** C4. The identifiers of the merged view are those of the baseline
    together with those of the local sequence, each of them once. *)
Theorem merge_ids (B L : list ShortLink) :
  list_to_set (ids (merge B L))
  = (list_to_set (ids B) ∪ list_to_set (ids L) : gset jsstring)
  ∧ NoDup (ids (merge B L)).
Proof.
  split; [| apply NoDup_ids_merge].
  apply set_eq. intros i.
  rewrite elem_of_union, !elem_of_list_to_set, ids_merge_perm.
  apply elem_of_keys_linkMap.
Qed.

(** C6. The merged view is sorted newest first; the records of one creation
    time keep the order in which the mapping holds them; and that order is
    the order of first insertion: the identifiers of the baseline, then the
    identifiers that only the local sequence has. *)
Theorem merge_order (B L : list ShortLink) :
  descending (merge B L)
  ∧ (∀ t, createdAtTime t (merge B L)
          = createdAtTime t (values (linkMap B L)))
  ∧ ids (values (linkMap B L))
    = firstOccurrences (ids B)
      ++ filter (λ i, i ∉ ids B) (firstOccurrences (ids L)).
Proof.
  split_and!.
  - apply merge_descending.
  - intros t. apply sort_stable.
  - rewrite ids_values_linkMap. apply keys_linkMap.
Qed.

Lemma set_fresh k v m : k ∉ keys m → set k v m = m ++ [(k, v)].
Proof.
  unfold keys. induction m as [|[k' v'] m IH]; csimpl; [done |].
  rewrite not_elem_of_cons. intros [Hne Hk].
  rewrite decide_False by done. by rewrite IH.
Qed.

Lemma setAll_distinct ls m :
  NoDup (keys m ++ ids ls) → setAll ls m = m ++ ((λ r, (id r, r)) <$> ls).
Proof.
  revert m. induction ls as [|l ls IH]; intros m Hnd.
  - csimpl. by rewrite app_nil_r.
  - assert (id l ∉ keys m) as Hfresh.
    { apply NoDup_app in Hnd as (_ & Hdisj & _).
      intros Hin. apply (Hdisj _ Hin). set_solver. }
    rewrite setAll_cons, set_fresh by done.
    rewrite IH.
    + csimpl. by rewrite <-(assoc_L (++)).
    + unfold keys in *. rewrite fmap_app. csimpl.
      by rewrite <-(assoc_L (++)).
Qed.

Lemma keys_of_list ls : keys ((λ r, (id r, r)) <$> ls) = ids ls.
Proof. unfold keys, ids. rewrite <-list_fmap_compose. done. Qed.

Lemma values_of_list ls : values ((λ r, (id r, r)) <$> ls) = ls.
Proof.
  unfold values. rewrite <-list_fmap_compose. apply list_fmap_id.
Qed.

(** Merging once more with the same local sequence rebuilds the same
    mapping. *)
Lemma linkMap_merge_again B L :
  linkMap (merge B L) L = (λ r, (id r, r)) <$> merge B L.
Proof.
  set (M := merge B L).
  assert (NoDup (ids M)) as HndM by apply NoDup_ids_merge.
  assert (setAll M empty = (λ r, (id r, r)) <$> M) as HM.
  { rewrite setAll_distinct; [done | done]. }
  assert (∀ i, i ∈ ids L → i ∈ ids M) as Hsub.
  { intros i Hi. unfold M. rewrite ids_merge_perm.
    apply elem_of_keys_linkMap. by right. }
  unfold linkMap. rewrite HM. apply map_ext.
  - apply NoDup_keys_setAll. by rewrite keys_of_list.
  - rewrite keys_setAll, !keys_of_list.
    rewrite filter_none; [by rewrite app_nil_r |].
    intros i Hi Hni. apply Hni, Hsub. by apply elem_of_firstOccurrences.
  - intros k. rewrite get_setAll.
    destruct (last (withId k L)) as [r|] eqn:Hlast; csimpl; [|done].
    symmetry. apply elem_get; [by rewrite keys_of_list |].
    destruct (last_withId_elem _ _ _ Hlast) as [_ <-].
    apply (list_elem_of_fmap_2 (λ r, (id r, r))).
    unfold M. rewrite merge_perm. apply (get_elem_values (id r)).
    by apply get_linkMap_local.
Qed.

(** C7. Merging the merged view again with the same local sequence changes
    nothing. *)
Theorem merge_idempotent (B L : list ShortLink) :
  merge (merge B L) L = merge B L.
Proof.
  unfold merge at 1. rewrite linkMap_merge_again, values_of_list.
  apply sort_descending_id, merge_descending.
Qed.

End MergeTheorems.

(** ** The monad *)

Section MonadFacts.
Context {S A B : Type}.

Lemma bind_returns (c : JS S A) (k : A → JS S B) s a s' :
  c s = (Return a, s') → bind c k s = k a s'.
Proof. unfold bind. by intros ->. Qed.

Lemma bind_throws (c : JS S A) (k : A → JS S B) s e s' :
  c s = (Throw e, s') → bind c k s = (Throw e, s').
Proof. unfold bind. by intros ->. Qed.

End MonadFacts.

(** ** The persistent store *)

Section StorageFacts.
Context `{HL : JSON (list ShortLink)} `{HS : JSON AppSettings}.

Lemma bind_member_shaped {S A B} (a : A) (k : A → JS S B) s :
  bind (member (Shaped a)) k s = k a s.
Proof. done. Qed.

Lemma bind_member_ill {S A B} (k : A → JS S B) s :
  bind (member IllShaped) k s = (Throw TypeError, s).
Proof. done. Qed.

(** The ways a read of the links goes: nothing stored (or the empty
    string), a text that parses, to a value of whatever shape, and a
    text that does not. *)
Lemma getLinks_cases b :
  getLinks b
  = match truthy (localStorage b !! STORAGE_KEY) with
    | Some text =>
        match JSON_parse text with
        | Some v => (Return v, b)
        | None =>
            (Return (Shaped []),
             run (consoleError (str "Failed to load links")) b)
        end
    | None => (Return (Shaped []), b)
    end.
Proof.
  unfold getLinks, tryCatch, bind, getItem, gets, parseJSON.
  destruct (truthy (localStorage b !! STORAGE_KEY)) as [text|]; [|done].
  by destruct (JSON_parse text).
Qed.

Lemma getSettings_cases b :
  getSettings b
  = (Return match truthy (localStorage b !! SETTINGS_KEY) with
            | Some text => default (Shaped emptySettings) (JSON_parse text)
            | None => Shaped emptySettings
            end, b).
Proof.
  unfold getSettings, tryCatch, bind, getItem, gets, parseJSON.
  destruct (truthy (localStorage b !! SETTINGS_KEY)) as [text|]; [|done].
  by destruct (JSON_parse text).
Qed.

Lemma getLinks_returns b :
  ∃ b', getLinks b = (Return (readLinks b), b')
        ∧ localStorage b' = localStorage b ∧ hash b' = hash b
        ∧ dbJson b' = dbJson b ∧ confirmReply b' = confirmReply b
        ∧ (readLinks b = IllShaped → b' = b).
Proof.
  unfold readLinks, outcome. rewrite getLinks_cases.
  destruct (truthy _) as [text|]; [|by eexists].
  destruct (JSON_parse text); by eexists.
Qed.

Lemma getSettings_read b : getSettings b = (Return (readSettings b), b).
Proof. unfold readSettings, outcome. by rewrite getSettings_cases. Qed.

Lemma readSettings_cases b :
  shapedSettings b
  ∨ (readSettings b = IllShaped ∧ storedSettings b = emptySettings).
Proof. unfold shapedSettings, storedSettings. destruct (readSettings b); eauto. Qed.

Lemma readSettings_ext b b' :
  localStorage b' = localStorage b → readSettings b' = readSettings b.
Proof.
  intros Heq. unfold readSettings, outcome. by rewrite !getSettings_cases, Heq.
Qed.

(** A store reads as an array, or as a value of another shape, and then
    it holds no record. *)
Lemma readLinks_cases b :
  shapedLinks b ∨ (readLinks b = IllShaped ∧ storedLinks b = []).
Proof. unfold shapedLinks, storedLinks. destruct (readLinks b); eauto. Qed.

(** In terms of the stored texts: the store reads as an array unless its
    text is not empty and parses to a value of another shape; likewise
    for the settings. *)
Lemma shapedLinks_text b :
  shapedLinks b ↔
  ∀ text, localStorage b !! STORAGE_KEY = Some text →
    JSON_parse (A := list ShortLink) text = Some IllShaped → text = [].
Proof.
  unfold shapedLinks, storedLinks, readLinks, outcome. rewrite getLinks_cases.
  destruct (localStorage b !! STORAGE_KEY) as [[|c text]|]; cbn [truthy];
    [naive_solver | | naive_solver].
  destruct (JSON_parse (c :: text)) as [[ls|]|] eqn:Hparse; cbn [fst];
    [naive_solver | | naive_solver].
  split; [done |]. intros Hnone. by specialize (Hnone _ eq_refl Hparse).
Qed.

Lemma shapedSettings_text b :
  shapedSettings b ↔
  ∀ text, localStorage b !! SETTINGS_KEY = Some text →
    JSON_parse (A := AppSettings) text = Some IllShaped → text = [].
Proof.
  unfold shapedSettings, storedSettings, readSettings, outcome.
  rewrite getSettings_cases.
  destruct (localStorage b !! SETTINGS_KEY) as [[|c text]|]; cbn [truthy];
    [naive_solver | | naive_solver].
  destruct (JSON_parse (c :: text)) as [[ls|]|] eqn:Hparse; cbn [fst default];
    [naive_solver | | naive_solver].
  split; [done |]. intros Hnone. by specialize (Hnone _ eq_refl Hparse).
Qed.

Lemma shapedLinks_nonempty b : storedLinks b ≠ [] → shapedLinks b.
Proof. by destruct (readLinks_cases b) as [|[_ ->]]. Qed.

Lemma readLinks_ext b b' :
  localStorage b' = localStorage b → readLinks b' = readLinks b.
Proof.
  intros Heq. unfold readLinks, outcome. rewrite !getLinks_cases, Heq.
  destruct (truthy _) as [text|]; [|done]. by destruct (JSON_parse text).
Qed.

Lemma storedLinks_ext b b' :
  localStorage b' = localStorage b → storedLinks b' = storedLinks b.
Proof. intros Heq. unfold storedLinks. by rewrite (readLinks_ext b b'). Qed.

Lemma shapedLinks_ext b b' :
  localStorage b' = localStorage b → shapedLinks b → shapedLinks b'.
Proof.
  intros Heq. unfold shapedLinks.
  by rewrite (readLinks_ext b b'), (storedLinks_ext b b').
Qed.

Lemma truthy_Some_nonempty text : text ≠ [] → truthy (Some text) = Some text.
Proof. by destruct text. Qed.

Lemma readLinks_setItem `{!JSONLaws (list ShortLink)} b ls :
  readLinks (run (setItem STORAGE_KEY (JSON_stringify ls)) b) = Shaped ls.
Proof.
  unfold readLinks, outcome. rewrite getLinks_cases.
  unfold run, setItem, modify, withLocalStorage. cbn [snd localStorage].
  rewrite lookup_insert_eq, truthy_Some_nonempty by apply stringify_nonempty.
  by rewrite parse_stringify.
Qed.

Lemma storedLinks_setItem `{!JSONLaws (list ShortLink)} b ls :
  storedLinks (run (setItem STORAGE_KEY (JSON_stringify ls)) b) = ls.
Proof. unfold storedLinks. by rewrite readLinks_setItem. Qed.

Lemma shapedLinks_setItem `{!JSONLaws (list ShortLink)} b
    (ls : list ShortLink) :
  shapedLinks (run (setItem STORAGE_KEY (JSON_stringify ls)) b).
Proof. unfold shapedLinks, storedLinks. by rewrite readLinks_setItem. Qed.

(** *** [findIndex] and the in-place write of [saveLink] *)

Lemma findIndex_lower {T} (p : T → bool) ls : -1 ≤ JsArray.findIndex p ls.
Proof. induction ls as [|x ls IH]; csimpl; repeat case_match; lia. Qed.

Lemma findIndex_find {T} (p : T → bool) ls :
  0 ≤ JsArray.findIndex p ls ↔ is_Some (JsArray.find p ls).
Proof.
  induction ls as [|x ls IH]; csimpl.
  - split; [lia | by intros [? ?]].
  - destruct (p x); [split; [eauto | lia] |].
    rewrite <-IH. pose proof (findIndex_lower p ls). case_decide; lia.
Qed.

Lemma insert_findIndex link ls :
  let i := JsArray.findIndex (λ l, bool_decide (id l = id link)) ls in
  0 ≤ i → <[Z.to_nat i := link]> ls = replaceFirst link ls.
Proof.
  induction ls as [|x ls IH]; csimpl; [done |].
  destruct (decide (id x = id link)) as [Heq|Hne].
  - by rewrite bool_decide_eq_true_2.
  - rewrite bool_decide_eq_false_2 by done.
    case_decide as Hi; [|lia]. intros _.
    replace (Z.to_nat (_ + 1)) with (Datatypes.S (Z.to_nat
      (JsArray.findIndex (λ l, bool_decide (id l = id link)) ls))) by lia.
    csimpl. f_equal. by apply IH.
Qed.

Lemma firstWithId_Some i ls r :
  firstWithId i ls = Some r → id r = i ∧ r ∈ ls.
Proof.
  unfold firstWithId. induction ls as [|x ls IH]; csimpl; [done |].
  case_bool_decide as Hx.
  - intros [= ->]. split; [done | set_solver].
  - intros [? ?]%IH. split; [done | set_solver].
Qed.

Lemma firstWithId_None i ls : firstWithId i ls = None ↔ i ∉ ids ls.
Proof.
  unfold firstWithId, ids. induction ls as [|x ls IH]; csimpl.
  - split; [intros _; apply not_elem_of_nil | done].
  - rewrite not_elem_of_cons. case_bool_decide as Hx; [naive_solver |].
    rewrite IH. naive_solver.
Qed.

Lemma firstWithId_replaceFirst i link ls :
  firstWithId i (replaceFirst link ls)
  = if decide (i = id link)
    then (λ _, link) <$> firstWithId i ls
    else firstWithId i ls.
Proof.
  unfold firstWithId. induction ls as [|x ls IH]; csimpl.
  - by case_decide.
  - destruct (decide (id x = id link)) as [Hx|Hx]; csimpl.
    + destruct (decide (i = id link)) as [->|Hi].
      * by rewrite !bool_decide_eq_true_2.
      * rewrite !bool_decide_eq_false_2 by congruence. done.
    + rewrite IH. destruct (decide (i = id link)) as [->|Hi].
      * by rewrite bool_decide_eq_false_2.
      * done.
Qed.

Lemma firstWithId_bumpFirst i j ls :
  firstWithId i (bumpFirst j ls)
  = if decide (i = j) then bumpClicks <$> firstWithId i ls
    else firstWithId i ls.
Proof.
  unfold bumpFirst. destruct (firstWithId j ls) as [r|] eqn:Hj.
  - apply firstWithId_Some in Hj as Hr. destruct Hr as [Hid _].
    rewrite firstWithId_replaceFirst. simpl. rewrite Hid.
    destruct (decide (i = j)) as [->|]; [by rewrite Hj | done].
  - destruct (decide (i = j)) as [->|]; [by rewrite Hj | done].
Qed.

(** *** The store operations as functions on the stored collection *)

Lemma saveLink_run link b :
  shapedLinks b →
  ∃ b1, localStorage b1 = localStorage b
        ∧ saveLink link b
          = (Return (),
             run (setItem STORAGE_KEY
                    (JSON_stringify
                       (if firstWithId (id link) (storedLinks b) is Some _
                        then replaceFirst link (storedLinks b)
                        else link :: storedLinks b))) b1).
Proof.
  intros Hshaped. destruct (getLinks_returns b) as (b1 & Hget & Hls & _).
  exists b1. split; [done |]. unfold saveLink.
  rewrite (bind_returns _ _ _ _ _ Hget), Hshaped, bind_member_shaped.
  unfold firstWithId.
  pose proof (findIndex_find (λ l, bool_decide (id l = id link)) (storedLinks b))
    as Hfind.
  case_decide as Hi.
  - rewrite insert_findIndex by done.
    apply Hfind in Hi as [r ->]. done.
  - destruct (JsArray.find _ _) as [r|]; [|done].
    exfalso. apply Hi, Hfind. eauto.
Qed.

(** On a store that reads as no array, [links.findIndex] throws and
    nothing is written. *)
Lemma saveLink_ill link b :
  readLinks b = IllShaped → saveLink link b = (Throw TypeError, b).
Proof.
  intros Hill. destruct (getLinks_returns b) as (b1 & Hget & _ & _ & _ & _ & Hb).
  rewrite (Hb Hill) in Hget. unfold saveLink.
  by rewrite (bind_returns _ _ _ _ _ Hget), Hill.
Qed.

Lemma incrementClicks_run i b :
  shapedLinks b →
  ∃ b1, localStorage b1 = localStorage b
        ∧ incrementClicks i b
          = match firstWithId i (storedLinks b) with
            | Some r =>
                (Return (),
                 run (setItem STORAGE_KEY
                        (JSON_stringify (bumpFirst i (storedLinks b)))) b1)
            | None => (Return (), b1)
            end.
Proof.
  intros Hshaped. destruct (getLinks_returns b) as (b1 & Hget & Hls & _).
  unfold incrementClicks.
  rewrite (bind_returns _ _ _ _ _ Hget), Hshaped, bind_member_shaped.
  fold (firstWithId i (storedLinks b)). unfold bumpFirst.
  destruct (firstWithId i (storedLinks b)) as [r|] eqn:Hr; [|by exists b1].
  destruct (saveLink_run (bumpClicks r) b1) as (b2 & Hls2 & ->);
    [by apply (shapedLinks_ext b) |].
  exists b2. split; [congruence |].
  rewrite (storedLinks_ext b b1) by done.
  apply firstWithId_Some in Hr as Hid. destruct Hid as [Hid _].
  simpl. rewrite Hid, Hr. done.
Qed.

(** On a store that reads as no array, [links.find] throws. *)
Lemma incrementClicks_ill i b :
  readLinks b = IllShaped → incrementClicks i b = (Throw TypeError, b).
Proof.
  intros Hill. destruct (getLinks_returns b) as (b1 & Hget & _ & _ & _ & _ & Hb).
  rewrite (Hb Hill) in Hget. unfold incrementClicks.
  by rewrite (bind_returns _ _ _ _ _ Hget), Hill.
Qed.


Lemma incrementClicks_absent i b :
  i ∉ ids (storedLinks b) →
  localStorage (run (incrementClicks i) b) = localStorage b.
Proof.
  intros Hi%firstWithId_None. unfold run.
  destruct (readLinks_cases b) as [Hshaped|[Hill _]].
  - destruct (incrementClicks_run i b Hshaped) as (b1 & Hls & ->).
    by rewrite Hi.
  - by rewrite incrementClicks_ill.
Qed.

Lemma incrementClicks_stored `{!JSONLaws (list ShortLink)} i b :
  storedLinks (run (incrementClicks i) b) = bumpFirst i (storedLinks b).
Proof.
  unfold run at 1. destruct (readLinks_cases b) as [Hshaped|[Hill Hnone]].
  - destruct (incrementClicks_run i b Hshaped) as (b1 & Hls & ->).
    unfold bumpFirst at 2.
    destruct (firstWithId i (storedLinks b)) as [r|] eqn:Hr.
    + cbn [snd]. rewrite storedLinks_setItem. unfold bumpFirst. by rewrite Hr.
    + cbn [snd]. by apply storedLinks_ext.
  - rewrite incrementClicks_ill by done. cbn [snd]. by rewrite Hnone.
Qed.

Lemma incrementClicks_shaped `{!JSONLaws (list ShortLink)} i b :
  shapedLinks b → shapedLinks (run (incrementClicks i) b).
Proof.
  intros Hshaped. unfold run.
  destruct (incrementClicks_run i b Hshaped) as (b1 & Hls & ->).
  destruct (firstWithId i (storedLinks b)); cbn [snd].
  - apply shapedLinks_setItem.
  - by apply (shapedLinks_ext b).
Qed.

(** *** The arithmetic of [clicks += 1] *)

Lemma addOne_exact n : - 2 ^ 53 ≤ n → n < 2 ^ 53 → addOne n = n + 1.
Proof. intros Hlo Hhi. unfold addOne. rewrite decide_True by lia. done. Qed.




Lemma bumpClicks_addClicks r :
  bumpClicks r = addClicks (addOne (clicks r) - clicks r) r.
Proof. unfold addClicks, bumpClicks. f_equal. lia. Qed.

Lemma bumpClicks_exact r :
  - 2 ^ 53 ≤ clicks r → clicks r < 2 ^ 53 → bumpClicks r = addClicks 1 r.
Proof.
  intros Hlo Hhi. rewrite bumpClicks_addClicks, addOne_exact by done.
  f_equal. lia.
Qed.






End StorageFacts.

(** ** The component: data load, resolution, view refresh *)

Lemma elem_of_ids_merge i B L : i ∈ ids (merge B L) ↔ i ∈ ids B ∨ i ∈ ids L.
Proof. rewrite ids_merge_perm. apply elem_of_keys_linkMap. Qed.

Section ComponentFacts.
Context {Mode : Type}.
Context `{HL : JSON (list ShortLink)} `{HS : JSON AppSettings}.
Implicit Types w : World Mode.

Lemma liftB_returns {A} (c : JS Browser A) w a b' :
  c (browser w) = (Return a, b') →
  liftB c w = (Return a, mkWorld b' (app w)).
Proof. unfold liftB. by intros ->. Qed.

Lemma liftB_throws {A} (c : JS Browser A) w e :
  c (browser w) = (Throw e, browser w) → liftB c w = (Throw e, w).
Proof. unfold liftB. intros ->. by destruct w. Qed.

Lemma liftB_gets {A} (f : Browser → A) w :
  liftB (gets f) w = (Return (f (browser w)), w).
Proof. by destruct w. Qed.

Lemma app_liftB {A} (c : JS Browser A) w : app (run (liftB c) w) = app w.
Proof. unfold run, liftB. by destruct (c (browser w)). Qed.

Lemma detectEnvironment_returns w :
  ∃ a', detectEnvironment w = (Return (), mkWorld (browser w) a')
        ∧ mode a' = mode (app w) ∧ links a' = links (app w).
Proof.
  unfold detectEnvironment, bind, liftB, gets, setDetectedUrl, setIsBlob,
    setApp, modify.
  cbn [browser app]. eexists. split; [reflexivity | done].
Qed.

(** On a store that reads as an array the data load returns, whatever
    the fetch does, and touches neither the React state nor the inputs of
    the browser. *)
Lemma loadMergedLinks_returns w :
  shapedLinks (browser w) →
  ∃ b',
    loadMergedLinks w = (Return (snapshotOf (browser w)), mkWorld b' (app w))
    ∧ localStorage b' = localStorage (browser w)
    ∧ hash b' = hash (browser w).
Proof.
  intros Hshaped.
  destruct (getLinks_returns (browser w)) as (b' & Hget & Hls & Hhash & Hdb & _).
  exists b'. split; [|done]. unfold loadMergedLinks, snapshotOf.
  rewrite (bind_returns _ _ _ _ _ (liftB_returns _ _ _ _ Hget)), Hshaped.
  unfold bind, tryCatch, liftB, gets, parseJSON. cbn [browser app].
  rewrite Hdb. destruct (dbJson (browser w)) as [|[] body]; [done | | done].
  by destruct (JSON_parse body) as [[staticLinks|]|].
Qed.

(** On a store that reads as no array, [mergedLinks.forEach] throws
    inside the [try], where it is caught, and [mergedLinks.sort] throws
    after it, where it is not. *)
Lemma loadMergedLinks_ill w :
  readLinks (browser w) = IllShaped → loadMergedLinks w = (Throw TypeError, w).
Proof.
  intros Hill.
  destruct (getLinks_returns (browser w)) as (b' & Hget & _ & _ & _ & _ & Hb).
  rewrite (Hb Hill) in Hget. unfold loadMergedLinks.
  rewrite (bind_returns _ _ _ _ _ (liftB_returns _ _ _ _ Hget)), Hill.
  unfold bind, tryCatch, liftB, gets, parseJSON. cbn [browser app].
  destruct w as [b a]. cbn [browser app].
  destruct (dbJson b) as [|[] body]; [done | | done].
  by destruct (JSON_parse body) as [[staticLinks|]|].
Qed.

(** With [db.json] fetched and parsed, the snapshot is the merge of the
    baseline and the local store. *)
Lemma loadMergedLinks_merge w body staticLinks :
  shapedLinks (browser w) →
  dbJson (browser w) = Response true body →
  JSON_parse body = Some (Shaped staticLinks) →
  outcome loadMergedLinks w
  = Return (merge staticLinks (storedLinks (browser w))).
Proof.
  intros Hshaped Hdb Hparse. unfold outcome.
  destruct (loadMergedLinks_returns w Hshaped) as (b' & -> & _).
  unfold snapshotOf. by rewrite Hdb, Hparse.
Qed.

(** *** The resolver *)

Lemma findBySlug_first hash0 pre r post :
  slug r = hash0 → (∀ x, x ∈ pre → slug x ≠ hash0) →
  findBySlug hash0 (pre ++ r :: post) = Some r.
Proof.
  intros Hr. unfold findBySlug.
  induction pre as [|x pre IH]; intros Hpre; csimpl.
  - by rewrite bool_decide_eq_true_2.
  - rewrite bool_decide_eq_false_2 by (apply Hpre; set_solver).
    apply IH. intros y Hy. apply Hpre. set_solver.
Qed.

Lemma findBySlug_None hash0 ls :
  findBySlug hash0 ls = None ↔ ∀ x, x ∈ ls → slug x ≠ hash0.
Proof.
  unfold findBySlug. induction ls as [|x ls IH]; csimpl.
  - split; [|done]. intros _ y Hy. by apply elem_of_nil in Hy.
  - case_bool_decide as Hx.
    + split; [done |]. intros Hall. exfalso. apply (Hall x); [set_solver | done].
    + rewrite IH. split.
      * intros Hall y [->|Hy]%elem_of_cons; auto.
      * intros Hall y Hy. apply Hall. set_solver.
Qed.

Lemma findBySlug_Some hash0 ls r :
  findBySlug hash0 ls = Some r → r ∈ ls ∧ slug r = hash0.
Proof.
  unfold findBySlug. induction ls as [|x ls IH]; csimpl; [done |].
  case_bool_decide as Hx.
  - intros [= ->]. split; [set_solver | done].
  - intros [? ?]%IH. split; [set_solver | done].
Qed.

(** C5. Resolution decodes the fragment and then compares slugs for
    equality, code unit by code unit: among the records of the snapshot
    whose slug equals the decoded fragment it returns the first in the
    order of the snapshot, also when several have that slug, and it returns
    no record when none has it. It throws nothing and changes no state. *)
Theorem resolve_first_match (rawHash hash0 : jsstring)
    (snapshot : list ShortLink) w :
  rawHash ≠ [] →
  decodeURIComponent rawHash = Some hash0 →
  (∀ pre r post,
     snapshot = pre ++ r :: post →
     slug r = hash0 →
     (∀ x, x ∈ pre → slug x ≠ hash0) →
     resolve rawHash snapshot w = (Return (Some r), w))
  ∧ ((∀ x, x ∈ snapshot → slug x ≠ hash0) →
     resolve rawHash snapshot w = (Return None, w)).
Proof.
  intros _ Hdec. unfold resolve. rewrite Hdec. split.
  - intros pre r post -> Hr Hpre. unfold ret.
    by rewrite findBySlug_first.
  - intros Hnone. unfold ret. by apply findBySlug_None in Hnone as ->.
Qed.

(** *** The view refresh *)

Lemma refreshLinks_links w :
  shapedLinks (browser w) →
  outcome refreshLinks w = Return ()
  ∧ links (app (run refreshLinks w))
    = merge (links (app w)) (storedLinks (browser w)).
Proof.
  intros Hshaped. destruct (getLinks_returns (browser w)) as (b' & Hget & _).
  unfold outcome, run, refreshLinks.
  by rewrite (bind_returns _ _ _ _ _ (liftB_returns _ _ _ _ Hget)), Hshaped.
Qed.

(** On a store that reads as no array, [local.forEach] throws and the
    view stays as it was. *)
Lemma refreshLinks_ill w :
  readLinks (browser w) = IllShaped → refreshLinks w = (Throw TypeError, w).
Proof.
  intros Hill.
  destruct (getLinks_returns (browser w)) as (b' & Hget & _ & _ & _ & _ & Hb).
  rewrite (Hb Hill) in Hget. unfold refreshLinks.
  rewrite (bind_returns _ _ _ _ _ (liftB_returns _ _ _ _ Hget)), Hill.
  by destruct w.
Qed.

(** The view after a refresh: rebuilt over the one before, or left as it
    was. *)
Lemma refreshLinks_links_cases w :
  (∃ local, links (app (run refreshLinks w)) = merge (links (app w)) local)
  ∨ links (app (run refreshLinks w)) = links (app w).
Proof.
  destruct (readLinks_cases (browser w)) as [Hshaped|[Hill _]].
  - left. eexists. exact (proj2 (refreshLinks_links w Hshaped)).
  - right. unfold run. by rewrite refreshLinks_ill.
Qed.

Lemma deleteLink_returns j b :
  shapedLinks b → ∃ b', deleteLink j b = (Return (), b').
Proof.
  intros Hshaped. destruct (getLinks_returns b) as (b' & Hget & _).
  unfold deleteLink. rewrite (bind_returns _ _ _ _ _ Hget), Hshaped.
  by eexists.
Qed.

(** On a store that reads as no array, [filter] throws and nothing is
    written. *)
Lemma deleteLink_ill j b :
  readLinks b = IllShaped → deleteLink j b = (Throw TypeError, b).
Proof.
  intros Hill. destruct (getLinks_returns b) as (b1 & Hget & _ & _ & _ & _ & Hb).
  rewrite (Hb Hill) in Hget. unfold deleteLink.
  by rewrite (bind_returns _ _ _ _ _ Hget), Hill.
Qed.

Lemma handleDelete_links j w :
  (∃ local,
     links (app (run (handleDelete j) w)) = merge (links (app w)) local)
  ∨ links (app (run (handleDelete j) w)) = links (app w).
Proof.
  assert (handleDelete j w
          = (if confirmReply (browser w)
             then liftB (deleteLink j) ;;; refreshLinks
             else ret ()) (mkWorld (browser w) (app w))) as Heq by done.
  unfold run. rewrite Heq. clear Heq.
  destruct (confirmReply (browser w)) eqn:Hc; cbn [app]; [|by right].
  destruct (readLinks_cases (browser w)) as [Hshaped|[Hill _]].
  - destruct (deleteLink_returns j (browser w) Hshaped) as (b' & Hdel).
    pose proof (liftB_returns (deleteLink j) (mkWorld (browser w) (app w))
                  () b' Hdel) as Hlift.
    rewrite (bind_returns _ _ _ _ _ Hlift).
    exact (refreshLinks_links_cases (mkWorld b' (app w))).
  - right.
    pose proof (liftB_throws (deleteLink j) (mkWorld (browser w) (app w))
                  TypeError (deleteLink_ill j _ Hill)) as Hlift.
    by rewrite (bind_throws _ _ _ _ _ Hlift).
Qed.

(** C10. The view refresh removes no record: an identifier shown before
    [refreshLinks] is still shown after it, whatever the local store holds;
    so it is still shown after [handleDelete], which deletes the record from
    the store and then refreshes the view. *)
Theorem refreshLinks_keeps_ids w (i : jsstring) :
  i ∈ ids (links (app w)) →
  i ∈ ids (links (app (run refreshLinks w)))
  ∧ ∀ j, i ∈ ids (links (app (run (handleDelete j) w))).
Proof.
  intros Hi. split.
  - destruct (refreshLinks_links_cases w) as [[local ->]| ->]; [|done].
    apply elem_of_ids_merge. by left.
  - intros j. destruct (handleDelete_links j w) as [[local ->]| ->]; [|done].
    apply elem_of_ids_merge. by left.
Qed.

End ComponentFacts.

(** ** What the routing leaves alone *)

Section KeepsLinks.
Context {Mode : Type}.

Lemma keepsLinks_ret {A} (a : A) : keepsLinks (Mode := Mode) (ret a).
Proof. done. Qed.

Lemma keepsLinks_throw {A} e : keepsLinks (Mode := Mode) (A := A) (throw e).
Proof. done. Qed.

Lemma keepsLinks_bind {A B} (c : JS (World Mode) A) (k : A → JS (World Mode) B) :
  keepsLinks c → (∀ a, keepsLinks (k a)) → keepsLinks (bind c k).
Proof.
  intros Hc Hk w. specialize (Hc w). unfold run, bind in *.
  destruct (c w) as [[a|e] w']; [|done].
  rewrite <-Hc. apply Hk.
Qed.

Lemma keepsLinks_liftB {A} (c : JS Browser A) : keepsLinks (Mode := Mode) (liftB c).
Proof. intros w. by rewrite app_liftB. Qed.

Lemma keepsLinks_setMode (m : Mode) : keepsLinks (setMode m).
Proof. done. Qed.

Lemma keepsLinks_setRedirectData target slug0 :
  keepsLinks (Mode := Mode) (setRedirectData target slug0).
Proof. done. Qed.

Lemma keepsLinks_setTimeout ms url : keepsLinks (Mode := Mode) (setTimeout ms url).
Proof. apply keepsLinks_liftB. Qed.

Lemma keepsLinks_resolve rawHash ml : keepsLinks (Mode := Mode) (resolve rawHash ml).
Proof. unfold resolve. by destruct (decodeURIComponent rawHash). Qed.

End KeepsLinks.

Create HintDb keeps.

#[local] Hint Resolve keepsLinks_ret keepsLinks_throw keepsLinks_liftB
  keepsLinks_setMode keepsLinks_setRedirectData keepsLinks_setTimeout
  keepsLinks_resolve : keeps.

(** ** The bootstrap sequence *)

Lemma initGA_returns gaId b :
  ∃ b', initGA gaId b = (Return (), b')
        ∧ localStorage b' = localStorage b ∧ hash b' = hash b
        ∧ dbJson b' = dbJson b.
Proof.
  unfold initGA, bind, gets, modify, ret.
  destruct (bool_decide (gaId = []) || gtag b); by eexists.
Qed.

Lemma trackRedirect_returns gaId slug0 target b :
  ∃ b', trackRedirect gaId slug0 target b = (Return (), b').
Proof.
  unfold trackRedirect, bind, gets, modify, ret.
  destruct (negb (gtag b)); by eexists.
Qed.

Module AppNotFoundFacts.
Import AppNotFound.

Section WithJSON.
Context `{HL : JSON (list ShortLink)} `{HS : JSON AppSettings}.
Implicit Types w : World AppMode.

Lemma startAnalytics_returns (s : AppSettings) w :
  ∃ b',
    match truthy (googleAnalyticsId s) with
    | Some gaId => liftB (initGA gaId)
    | None => ret ()
    end w = (Return (), mkWorld b' (app w))
    ∧ hash b' = hash (browser w)
    ∧ localStorage b' = localStorage (browser w).
Proof.
  destruct (truthy (googleAnalyticsId s)) as [gaId|].
  - destruct (initGA_returns gaId (browser w)) as (b' & Hga & Hls & Hhash & _).
    exists b'. split; [by apply liftB_returns | done].
  - exists (browser w). by destruct w.
Qed.

(** The load up to the first use of the settings. *)
Lemma loadAll_settings w :
  ∃ a1,
    loadAll w
    = (object <- member (readSettings (browser w)) ;;
       match truthy (googleAnalyticsId object) with
       | Some gaId => liftB (initGA gaId)
       | None => ret ()
       end ;;;
       mergedLinks <- loadMergedLinks ;;
       setLinks (λ _, mergedLinks) ;;;
       ret (object, mergedLinks)) (mkWorld (browser w) a1)
    ∧ mode a1 = mode (app w) ∧ links a1 = links (app w).
Proof.
  unfold loadAll.
  destruct (detectEnvironment_returns w) as (a1 & Hdetect & Hmode1 & Hlinks1).
  rewrite (bind_returns _ _ _ _ _ Hdetect).
  pose proof (liftB_returns getSettings (mkWorld (browser w) a1) _ _
                (getSettings_read (browser w))) as Hsettings.
  rewrite (bind_returns _ _ _ _ _ Hsettings).
  unfold bind at 1, setSettings, setApp, modify. cbn [browser app].
  eexists. split; [reflexivity | done].
Qed.

(** On a store that reads as a settings object and as an array of links
    the load returns. *)
Lemma loadAll_returns w :
  shapedSettings (browser w) → shapedLinks (browser w) →
  ∃ s ml w1,
    loadAll w = (Return (s, ml), w1)
    ∧ hash (browser w1) = hash (browser w)
    ∧ mode (app w1) = mode (app w)
    ∧ links (app w1) = ml.
Proof.
  intros Hsettings Hlinks.
  destruct (loadAll_settings w) as (a1 & -> & Hmode1 & _).
  rewrite Hsettings, bind_member_shaped.
  match goal with |- context [bind _ _ ?w0] => set (w2 := w0) end.
  destruct (startAnalytics_returns (storedSettings (browser w)) w2)
    as (b3 & Hga & Hhash3 & Hls3).
  rewrite (bind_returns _ _ _ _ _ Hga).
  destruct (loadMergedLinks_returns (mkWorld b3 (app w2)))
    as (b4 & Hload & _ & Hhash4);
    [by apply (shapedLinks_ext (browser w)) |].
  rewrite (bind_returns _ _ _ _ _ Hload).
  match type of Hload with _ = (Return ?v, _) => set (ml := v) in * end.
  subst w2. cbn [browser] in Hhash3, Hhash4.
  exists (storedSettings (browser w)), ml. eexists. split; [reflexivity |].
  cbn [browser app mode links]. split_and!; [congruence | done | done].
Qed.

(** On a store whose settings read as [null], or whose links read as no
    array, the load throws: at [loadedSettings.googleAnalyticsId], or at
    [mergedLinks.sort]. The mode and the links of the view are as they
    were. *)
Lemma loadAll_throws w :
  readSettings (browser w) = IllShaped ∨ readLinks (browser w) = IllShaped →
  ∃ w1, loadAll w = (Throw TypeError, w1)
        ∧ mode (app w1) = mode (app w)
        ∧ links (app w1) = links (app w).
Proof.
  intros Hill.
  destruct (loadAll_settings w) as (a1 & -> & Hmode1 & Hlinks1).
  destruct (readSettings_cases (browser w)) as [Hsettings|[Hnull _]].
  - destruct Hill as [Hnull|Hill]; [congruence |].
    rewrite Hsettings, bind_member_shaped.
    match goal with |- context [bind _ _ ?w0] => set (w2 := w0) end.
    destruct (startAnalytics_returns (storedSettings (browser w)) w2)
      as (b3 & Hga & Hhash3 & Hls3).
    rewrite (bind_returns _ _ _ _ _ Hga).
    rewrite (bind_throws _ _ _ _ _
               (loadMergedLinks_ill (mkWorld b3 (app w2))
                  (eq_trans (readLinks_ext _ _ Hls3) Hill))).
    eexists. split; [reflexivity |]. done.
  - rewrite Hnull, bind_member_ill. eexists. split; [reflexivity |]. done.
Qed.

Lemma routing_keepsLinks s ml : keepsLinks (routing s ml).
Proof.
  unfold routing. apply keepsLinks_bind; [auto with keeps |].
  intros [|c raw]; [auto with keeps |].
  apply keepsLinks_bind; [auto with keeps |].
  intros [m|]; [|auto with keeps].
  repeat (apply keepsLinks_bind; [solve [auto with keeps] | intros _]).
  apply keepsLinks_bind; [| auto with keeps].
  destruct (truthy _); auto with keeps.
Qed.

(** The bootstrap runs the routing on the snapshot it has just stored in
    the view, at the same address fragment and in the same mode. *)
Lemma initApp_routing w :
  shapedSettings (browser w) → shapedLinks (browser w) →
  ∃ s w1,
    initApp w = routing s (links (app w1)) w1
    ∧ hash (browser w1) = hash (browser w)
    ∧ mode (app w1) = mode (app w).
Proof.
  intros Hsettings Hlinks.
  destruct (loadAll_returns w Hsettings Hlinks)
    as (s & ml & w1 & Hload & Hhash & Hmode & <-).
  exists s, w1. split; [|done].
  unfold initApp. by rewrite (bind_returns _ _ _ _ _ Hload).
Qed.

(** When the load throws the routing is not reached. *)
Lemma initApp_throws w :
  readSettings (browser w) = IllShaped ∨ readLinks (browser w) = IllShaped →
  outcome initApp w = Throw TypeError
  ∧ mode (app (run initApp w)) = mode (app w)
  ∧ links (app (run initApp w)) = links (app w).
Proof.
  intros Hill. destruct (loadAll_throws w Hill) as (w1 & Hload & Hmode & Hlinks).
  unfold outcome, run, initApp. by rewrite (bind_throws _ _ _ _ _ Hload).
Qed.


Lemma initApp_malformed w (rawHash : jsstring) :
  shapedSettings (browser w) → shapedLinks (browser w) →
  substring1 (hash (browser w)) = rawHash →
  rawHash ≠ [] →
  decodeURIComponent rawHash = None →
  outcome initApp w = Throw URIError
  ∧ mode (app (run initApp w)) = mode (app w).
Proof.
  intros Hsettings Hlinks Hraw Hne Hdec.
  destruct (initApp_routing w Hsettings Hlinks)
    as (s & w1 & Hinit & Hhash & Hmode).
  unfold outcome, run. rewrite Hinit.
  unfold routing. rewrite (bind_returns _ _ _ _ _ (liftB_gets _ _)).
  rewrite Hhash, Hraw. destruct rawHash as [|c raw]; [done |].
  assert (resolve (c :: raw) (links (app w1)) w1 = (Throw URIError, w1)) as Hres.
  { unfold resolve. by rewrite Hdec. }
  rewrite (bind_throws _ _ _ _ _ Hres). done.
Qed.

End WithJSON.

End AppNotFoundFacts.

Module AppFacts.
Import App.

Section WithJSON.
Context `{HL : JSON (list ShortLink)} `{HS : JSON AppSettings}.
Implicit Types w : World AppMode.

(** The load up to the read of the links. *)
Lemma earlier_loadAll_settings w :
  ∃ a2,
    loadAll w
    = (mergedLinks <- loadMergedLinks ;;
       setLinks (λ _, mergedLinks) ;;;
       ret mergedLinks) (mkWorld (browser w) a2)
    ∧ mode a2 = mode (app w) ∧ links a2 = links (app w).
Proof.
  unfold loadAll.
  pose proof (liftB_returns getSettings w _ _ (getSettings_read (browser w)))
    as Hsettings.
  rewrite (bind_returns _ _ _ _ _ Hsettings).
  unfold bind at 1, setSettings, setApp, modify. cbn [browser app].
  match goal with |- context [bind _ _ ?w0] => set (w1 := w0) end.
  destruct (detectEnvironment_returns w1) as (a2 & Hdetect & Hmode2 & Hlinks2).
  rewrite (bind_returns _ _ _ _ _ Hdetect).
  exists a2. split; [reflexivity | done].
Qed.

Lemma earlier_loadAll_returns w :
  shapedLinks (browser w) →
  ∃ ml w1,
    loadAll w = (Return ml, w1)
    ∧ hash (browser w1) = hash (browser w)
    ∧ mode (app w1) = mode (app w)
    ∧ links (app w1) = ml.
Proof.
  intros Hlinks. destruct (earlier_loadAll_settings w) as (a2 & -> & Hmode2 & _).
  destruct (loadMergedLinks_returns (mkWorld (browser w) a2))
    as (b3 & Hload & _ & Hhash3); [done |].
  rewrite (bind_returns _ _ _ _ _ Hload).
  match type of Hload with _ = (Return ?v, _) => set (ml := v) in * end.
  exists ml. eexists. split; [reflexivity |].
  cbn [browser app mode links]. done.
Qed.

(** In this revision the settings are stored in the state and not
    looked into: the load throws only at [mergedLinks.sort]. *)
Lemma earlier_loadAll_throws w :
  readLinks (browser w) = IllShaped →
  ∃ w1, loadAll w = (Throw TypeError, w1)
        ∧ mode (app w1) = mode (app w)
        ∧ links (app w1) = links (app w).
Proof.
  intros Hill.
  destruct (earlier_loadAll_settings w) as (a2 & -> & Hmode2 & Hlinks2).
  rewrite (bind_throws _ _ _ _ _
             (loadMergedLinks_ill (mkWorld (browser w) a2) Hill)).
  eexists. split; [reflexivity |]. done.
Qed.

Lemma initApp_checkRedirectHash w :
  shapedLinks (browser w) →
  ∃ w1,
    initApp w = checkRedirectHash (links (app w1)) w1
    ∧ hash (browser w1) = hash (browser w)
    ∧ mode (app w1) = mode (app w).
Proof.
  intros Hlinks.
  destruct (earlier_loadAll_returns w Hlinks)
    as (ml & w1 & Hload & Hhash & Hmode & <-).
  exists w1. split; [|done].
  unfold initApp. by rewrite (bind_returns _ _ _ _ _ Hload).
Qed.

Lemma earlier_initApp_throws w :
  readLinks (browser w) = IllShaped →
  outcome initApp w = Throw TypeError
  ∧ mode (app (run initApp w)) = mode (app w)
  ∧ links (app (run initApp w)) = links (app w).
Proof.
  intros Hill.
  destruct (earlier_loadAll_throws w Hill) as (w1 & Hload & Hmode & Hlinks).
  unfold outcome, run, initApp. by rewrite (bind_throws _ _ _ _ _ Hload).
Qed.

Lemma checkRedirectHash_keepsLinks ml : keepsLinks (checkRedirectHash ml).
Proof.
  unfold checkRedirectHash. apply keepsLinks_bind; [auto with keeps |].
  intros [|c raw]; [auto with keeps |].
  apply keepsLinks_bind; [auto with keeps |].
  intros [m|]; [|auto with keeps].
  repeat (apply keepsLinks_bind; [solve [auto with keeps] | intros _]).
  auto with keeps.
Qed.


Lemma earlier_initApp_malformed w (rawHash : jsstring) :
  shapedLinks (browser w) →
  substring1 (hash (browser w)) = rawHash →
  rawHash ≠ [] →
  decodeURIComponent rawHash = None →
  outcome initApp w = Throw URIError
  ∧ mode (app (run initApp w)) = mode (app w).
Proof.
  intros Hlinks Hraw Hne Hdec.
  destruct (initApp_checkRedirectHash w Hlinks) as (w1 & Hinit & Hhash & Hmode).
  unfold outcome, run. rewrite Hinit.
  unfold checkRedirectHash. rewrite (bind_returns _ _ _ _ _ (liftB_gets _ _)).
  rewrite Hhash, Hraw. destruct rawHash as [|c raw]; [done |].
  assert (resolve (c :: raw) (links (app w1)) w1 = (Throw URIError, w1)) as Hres.
  { unfold resolve. by rewrite Hdec. }
  rewrite (bind_throws _ _ _ _ _ Hres). done.
Qed.

End WithJSON.

End AppFacts.

Section Routes.
Context `{HL : JSON (list ShortLink)} `{HS : JSON AppSettings}.


(** C3, as the code has it. When the fragment is not empty and its
    percent-decoding fails, the bootstrap throws and the mode is never
    set: the sequencer stays in the mode it started in ([BOOTSTRAP], or
    [LOADING] in [src/App.tsx]). It reaches neither [NOT_FOUND] nor
    [DASHBOARD]. On a store that reads as a settings object and an array
    of links it is [decodeURIComponent] that throws, and nothing catches
    its [URIError]; on another store the load has thrown a [TypeError]
    before. *)
Theorem malformed_fragment_leaves_bootstrap (rawHash : jsstring) :
  rawHash ≠ [] →
  decodeURIComponent rawHash = None →
  (∀ w : World AppNotFound.AppMode,
     substring1 (hash (browser w)) = rawHash →
     mode (app w) = AppNotFound.BOOTSTRAP →
     (∃ e, outcome AppNotFound.initApp w = Throw e)
     ∧ (shapedSettings (browser w) → shapedLinks (browser w) →
        outcome AppNotFound.initApp w = Throw URIError)
     ∧ (readSettings (browser w) = IllShaped
        ∨ readLinks (browser w) = IllShaped →
        outcome AppNotFound.initApp w = Throw TypeError)
     ∧ mode (app (run AppNotFound.initApp w)) = AppNotFound.BOOTSTRAP
     ∧ mode (app (run AppNotFound.initApp w)) ≠ AppNotFound.NOT_FOUND)
  ∧ (∀ w : World App.AppMode,
       substring1 (hash (browser w)) = rawHash →
       mode (app w) = App.LOADING →
       (∃ e, outcome App.initApp w = Throw e)
       ∧ (shapedLinks (browser w) → outcome App.initApp w = Throw URIError)
       ∧ (readLinks (browser w) = IllShaped →
          outcome App.initApp w = Throw TypeError)
       ∧ mode (app (run App.initApp w)) = App.LOADING).
Proof.
  intros Hne Hdec. split.
  - intros w Hraw Hmode.
    assert (readSettings (browser w) = IllShaped
            ∨ readLinks (browser w) = IllShaped →
            outcome AppNotFound.initApp w = Throw TypeError) as Hthrows.
    { intros Hill. by destruct (AppNotFoundFacts.initApp_throws w Hill). }
    destruct (readSettings_cases (browser w)) as [Hsettings|[Hnull _]];
      [destruct (readLinks_cases (browser w)) as [Hlinks|[Hill _]] |].
    + destruct (AppNotFoundFacts.initApp_malformed w rawHash
                  Hsettings Hlinks Hraw Hne Hdec) as [Hout Hstay].
      rewrite Hstay, Hmode. split_and!; eauto.
    + destruct (AppNotFoundFacts.initApp_throws w (or_intror Hill))
        as (Hout & Hstay & _).
      rewrite Hstay, Hmode. split_and!; [eauto | | done..].
      unfold shapedLinks. rewrite Hill. done.
    + destruct (AppNotFoundFacts.initApp_throws w (or_introl Hnull))
        as (Hout & Hstay & _).
      rewrite Hstay, Hmode. split_and!; [eauto | | done..].
      unfold shapedSettings. rewrite Hnull. done.
  - intros w Hraw Hmode.
    assert (readLinks (browser w) = IllShaped →
            outcome App.initApp w = Throw TypeError) as Hthrows.
    { intros Hill. by destruct (AppFacts.earlier_initApp_throws w Hill). }
    destruct (readLinks_cases (browser w)) as [Hlinks|[Hill _]].
    + destruct (AppFacts.earlier_initApp_malformed w rawHash
                  Hlinks Hraw Hne Hdec) as [Hout Hstay].
      rewrite Hstay, Hmode. split_and!; eauto.
    + destruct (AppFacts.earlier_initApp_throws w Hill) as (Hout & Hstay & _).
      rewrite Hstay, Hmode. split_and!; [eauto | | done..].
      unfold shapedLinks. rewrite Hill. done.
Qed.

End Routes.

(** * Scenarios *)

Module Scenarios.
Import Sample.

Lemma unbits_bits p : unbits (bits p) = Some p.
Proof.
  induction p as [p IH|p IH|]; csimpl; [by rewrite IH.. | done].
Qed.

Lemma read_write {A} `{Countable A} (a : A) :
  read (write a) = Some (Shaped a).
Proof. unfold read, write. by rewrite unbits_bits, decode_encode. Qed.

#[global] Instance links_laws : JSONLaws (list ShortLink).
Proof. split; [apply read_write | done]. Qed.

#[global] Instance settings_laws : JSONLaws AppSettings.
Proof. split; [apply read_write | done]. Qed.

(** Scenario A: a baseline record and an empty local store. *)
Example scenario_A : merge baseline [] = [link "1" "abc" 100 0].
Proof. reflexivity. Qed.

(** Scenario B: the local record wins, with its 5 clicks. *)
Example scenario_B : merge baseline localStore = [link "1" "abc" 100 5].
Proof. reflexivity. Qed.

(** Scenario C: the fragment abc resolves; the store then counts 6 clicks
    and the sequencer redirects to the target of the record. *)
Example scenario_C :
  let w := run AppNotFound.initApp (bootstrapAt "#abc") in
  outcome AppNotFound.initApp (bootstrapAt "#abc") = Return ()
  ∧ mode (app w) = AppNotFound.REDIRECT_PROCESS
  ∧ storedLinks (browser w) = [link "1" "abc" 100 6]
  ∧ timers (browser w) = [mkTimer 150 (str "https://x.com")].
Proof. vm_compute. done. Qed.

(** Scenario D: no record has the slug zzz. *)
Example scenario_D :
  mode (app (run AppNotFound.initApp (bootstrapAt "#zzz")))
  = AppNotFound.NOT_FOUND.
Proof. vm_compute. done. Qed.

(** In [src/App.tsx] the same bootstrap ends on the dashboard. *)
Example scenario_D_earlier_revision :
  mode (app (run App.initApp (loadingAt "#zzz"))) = App.DASHBOARD.
Proof. vm_compute. done. Qed.

(** The comparison of slugs is case-sensitive. *)
Example resolve_case_sensitive :
  outcome (resolve (Mode := AppNotFound.AppMode) (str "ABC") localStore)
    (bootstrapAt "#ABC")
  = Return None.
Proof. vm_compute. done. Qed.

(** A lone percent sign is a malformed fragment: the bootstrap throws and
    the sequencer is left in [BOOTSTRAP]. *)
Example malformed_fragment_run :
  outcome AppNotFound.initApp (bootstrapAt "#%") = Throw URIError
  ∧ mode (app (run AppNotFound.initApp (bootstrapAt "#%")))
    = AppNotFound.BOOTSTRAP.
Proof. vm_compute. done. Qed.

(** A record deleted from the store stays in the refreshed view. *)
Example deleted_record_stays_in_view :
  let w := run (handleDelete (str "1"))
             (worldShowing AppNotFound.DASHBOARD localStore
                (Some (write localStore))) in
  storedLinks (browser w) = [] ∧ links (app w) = localStore.
Proof. vm_compute. done. Qed.

Lemma merge_local_wins_witness :
  str "1" ∈ ids baseline
  ∧ str "1" ∈ ids localStore
  ∧ ∃ r, withId (str "1") (merge baseline localStore) = [r]
         ∧ last (withId (str "1") localStore) = Some r
         ∧ r ∈ localStore
         ∧ (NoDup (ids localStore) → withId (str "1") localStore = [r]).
Proof.
  assert (str "1" ∈ ids baseline) as HB by compute_done.
  assert (str "1" ∈ ids localStore) as HL by compute_done.
  do 2 (split; [done |]).
  exact (merge_local_wins baseline localStore (str "1") HB HL).
Defined.



Lemma malformed_fragment_leaves_bootstrap_witness :
  str "%" ≠ []
  ∧ decodeURIComponent (str "%") = None
  ∧ (shapedSettings (browser (bootstrapAt "#%"))
     ∧ shapedLinks (browser (bootstrapAt "#%"))
     ∧ outcome AppNotFound.initApp (bootstrapAt "#%") = Throw URIError
     ∧ mode (app (run AppNotFound.initApp (bootstrapAt "#%")))
       = AppNotFound.BOOTSTRAP
     ∧ mode (app (run AppNotFound.initApp (bootstrapAt "#%")))
       ≠ AppNotFound.NOT_FOUND)
  ∧ (readLinks (browser (nullLinksAt "#%")) = IllShaped
     ∧ outcome AppNotFound.initApp (nullLinksAt "#%") = Throw TypeError
     ∧ mode (app (run AppNotFound.initApp (nullLinksAt "#%")))
       = AppNotFound.BOOTSTRAP)
  ∧ (shapedLinks (browser (loadingAt "#%"))
     ∧ outcome App.initApp (loadingAt "#%") = Throw URIError
     ∧ mode (app (run App.initApp (loadingAt "#%"))) = App.LOADING).
Proof.
  assert (str "%" ≠ []) as Hne by discriminate.
  assert (decodeURIComponent (str "%") = None) as Hdec by reflexivity.
  assert (shapedSettings (browser (bootstrapAt "#%")))
    as Hsettings by (vm_compute; reflexivity).
  assert (shapedLinks (browser (bootstrapAt "#%")))
    as Hlinks by (vm_compute; reflexivity).
  assert (readLinks (browser (nullLinksAt "#%")) = IllShaped)
    as Hill by (vm_compute; reflexivity).
  assert (shapedLinks (browser (loadingAt "#%")))
    as Hearlier by (vm_compute; reflexivity).
  do 2 (split; [done |]).
  destruct (malformed_fragment_leaves_bootstrap (str "%") Hne Hdec)
    as [Hbootstrap Hloading].
  split_and!; [done | done | | | | done | | | done | |].
  - exact (proj1 (proj2 (Hbootstrap (bootstrapAt "#%") eq_refl eq_refl))
             Hsettings Hlinks).
  - exact (proj1 (proj2 (proj2 (proj2
             (Hbootstrap (bootstrapAt "#%") eq_refl eq_refl))))).
  - exact (proj2 (proj2 (proj2 (proj2
             (Hbootstrap (bootstrapAt "#%") eq_refl eq_refl))))).
  - exact (proj1 (proj2 (proj2 (Hbootstrap (nullLinksAt "#%") eq_refl eq_refl)))
             (or_intror Hill)).
  - exact (proj1 (proj2 (proj2 (proj2
             (Hbootstrap (nullLinksAt "#%") eq_refl eq_refl))))).
  - exact (proj1 (proj2 (Hloading (loadingAt "#%") eq_refl eq_refl)) Hearlier).
  - exact (proj2 (proj2 (proj2 (Hloading (loadingAt "#%") eq_refl eq_refl)))).
Defined.

Lemma resolve_first_match_witness :
  str "a%20b" ≠ []
  ∧ decodeURIComponent (str "a%20b") = Some (str "a b")
  ∧ resolve (str "a%20b") sharedSlug (bootstrapAt "#a%20b")
    = (Return (Some (link "2" "a b" 200 0)), bootstrapAt "#a%20b").
Proof.
  assert (str "a%20b" ≠ []) as Hne by discriminate.
  assert (decodeURIComponent (str "a%20b") = Some (str "a b"))
    as Hdec by reflexivity.
  do 2 (split; [done |]).
  refine (proj1 (resolve_first_match (str "a%20b") (str "a b") sharedSlug
                   (bootstrapAt "#a%20b") Hne Hdec)
            [link "1" "x" 300 0] (link "2" "a b" 200 0)
            [link "3" "a b" 100 0] eq_refl eq_refl _).
  intros x ->%list_elem_of_singleton. discriminate.
Defined.




(** Over a store whose texts are [null] the reads return no collection
    and no settings object, nothing is logged, and the fault reaches the
    callers: the store operations, the view refresh and the bootstrap
    throw a [TypeError]. *)
Example null_texts_reach_the_callers :
  (¬ ∃ ls, outcome getLinks nullStore = Return (Shaped ls))
  ∧ (¬ ∃ s, outcome getSettings nullStore = Return (Shaped s))
  ∧ console (run getLinks nullStore) = []
  ∧ outcome (saveLink worn) nullStore = Throw TypeError
  ∧ outcome (deleteLink (str "1")) nullStore = Throw TypeError
  ∧ outcome (checkSlugExists (str "abc") None) nullStore = Throw TypeError
  ∧ outcome (refreshLinks (Mode := AppNotFound.AppMode))
      (mkWorld nullStore (initialState AppNotFound.DASHBOARD))
    = Throw TypeError
  ∧ outcome AppNotFound.initApp (nullLinksAt "") = Throw TypeError
  ∧ mode (app (run AppNotFound.initApp (nullLinksAt "")))
    = AppNotFound.BOOTSTRAP.
Proof.
  assert (outcome getLinks nullStore = Return IllShaped)
    as Hlinks by (vm_compute; reflexivity).
  assert (outcome getSettings nullStore = Return IllShaped)
    as Hsettings by (vm_compute; reflexivity).
  split_and!; [| | vm_compute; done ..].
  - intros [ls Hls]. congruence.
  - intros [s Hs]. congruence.
Qed.

Lemma refreshLinks_keeps_ids_witness :
  let w := worldShowing AppNotFound.DASHBOARD localStore
             (Some (write localStore)) in
  str "1" ∈ ids (links (app w))
  ∧ str "1" ∈ ids (links (app (run refreshLinks w)))
  ∧ str "1" ∈ ids (links (app (run (handleDelete (str "1")) w))).
Proof.
  intros w.
  assert (str "1" ∈ ids (links (app w))) as Hi by compute_done.
  split; [done |].
  destruct (refreshLinks_keeps_ids w (str "1") Hi) as [Hrefresh Hdelete].
  split; [exact Hrefresh | exact (Hdelete (str "1"))].
Defined.

End Scenarios.

(** * Further properties of the store *)

Section CollectionFacts.

Lemma bumpFirst_cons i x ls :
  bumpFirst i (x :: ls)
  = if decide (id x = i) then bumpClicks x :: ls else x :: bumpFirst i ls.
Proof.
  unfold bumpFirst, firstWithId. csimpl.
  destruct (decide (id x = i)) as [Hx|Hx].
  - rewrite bool_decide_eq_true_2 by done. csimpl. by rewrite decide_True.
  - rewrite bool_decide_eq_false_2 by done.
    destruct (JsArray.find _ ls) as [r|] eqn:Hr; [|done].
    apply (firstWithId_Some i ls r) in Hr as [Hid _].
    csimpl. rewrite decide_False by congruence. done.
Qed.






Lemma bumpFirst_comm i j ls :
  i ≠ j → bumpFirst i (bumpFirst j ls) = bumpFirst j (bumpFirst i ls).
Proof.
  intros Hij. induction ls as [|x ls IH]; [done |].
  rewrite (bumpFirst_cons j x), (bumpFirst_cons i x).
  destruct (decide (id x = j)) as [Hj|Hj], (decide (id x = i)) as [Hi|Hi];
    try congruence; rewrite !bumpFirst_cons; csimpl.
  - by rewrite decide_False, decide_True.
  - by rewrite decide_True, decide_False.
  - by rewrite !decide_False, IH.
Qed.

Lemma ids_replaceFirst link ls : ids (replaceFirst link ls) = ids ls.
Proof.
  unfold ids. induction ls as [|x ls IH]; [done |]. csimpl.
  case_decide as Hx; csimpl; [by rewrite Hx | by rewrite IH].
Qed.

Lemma replaceFirst_twice link ls :
  replaceFirst link (replaceFirst link ls) = replaceFirst link ls.
Proof.
  induction ls as [|x ls IH]; [done |]. csimpl.
  case_decide as Hx; csimpl.
  - by rewrite decide_True.
  - by rewrite decide_False, IH.
Qed.

Lemma firstWithId_upsert i link ls :
  firstWithId i (upsert link ls)
  = if decide (i = id link) then Some link else firstWithId i ls.
Proof.
  unfold upsert. destruct (firstWithId (id link) ls) as [r|] eqn:Hr.
  - rewrite firstWithId_replaceFirst.
    case_decide as Hi; [|done]. subst i. by rewrite Hr.
  - unfold firstWithId. csimpl. case_decide as Hi.
    + subst i. by rewrite bool_decide_eq_true_2.
    + rewrite bool_decide_eq_false_2 by done. done.
Qed.

Lemma ids_upsert link ls :
  ids (upsert link ls)
  = if decide (id link ∈ ids ls) then ids ls else id link :: ids ls.
Proof.
  unfold upsert. destruct (firstWithId (id link) ls) as [r|] eqn:Hr.
  - rewrite ids_replaceFirst, decide_True; [done |].
    destruct (decide (id link ∈ ids ls)) as [|Hn]; [done |].
    apply firstWithId_None in Hn. congruence.
  - apply firstWithId_None in Hr. by rewrite decide_False.
Qed.

Lemma upsert_twice link ls : upsert link (upsert link ls) = upsert link ls.
Proof.
  unfold upsert at 1. rewrite firstWithId_upsert, decide_True by done.
  unfold upsert. destruct (firstWithId (id link) ls).
  - apply replaceFirst_twice.
  - csimpl. by rewrite decide_True.
Qed.

Lemma without_absent i ls : i ∉ ids ls → without i ls = ls.
Proof.
  intros Hi. apply filter_all. intros x Hx Hid. apply Hi. rewrite <-Hid.
  by apply list_elem_of_fmap_2.
Qed.


Lemma without_upsert_fresh link ls :
  id link ∉ ids ls → without (id link) (upsert link ls) = ls.
Proof.
  intros Hfresh. unfold upsert.
  apply firstWithId_None in Hfresh as Hnone. rewrite Hnone.
  unfold without. rewrite filter_cons_False by naive_solver.
  by apply without_absent.
Qed.

Lemma JsArray_filter_without i ls :
  JsArray.filter (λ l, bool_decide (id l ≠ i)) ls = without i ls.
Proof.
  unfold JsArray.filter, without. induction ls as [|x ls IH]; [done |].
  csimpl. rewrite filter_cons, IH.
  destruct (decide (id x ≠ i)).
  - by rewrite bool_decide_eq_true_2.
  - by rewrite bool_decide_eq_false_2.
Qed.

End CollectionFacts.

Section StoreOperations.
Context `{HL : JSON (list ShortLink)} `{HS : JSON AppSettings}.

Lemma keys_distinct : STORAGE_KEY ≠ SETTINGS_KEY.
Proof. compute_done. Qed.

Lemma logged_nil b : logged [] b = b.
Proof. destruct b. unfold logged. csimpl. by rewrite app_nil_r. Qed.

Lemma getLinks_run b :
  getLinks b = (Return (readLinks b), logged (readErrors b) b).
Proof.
  unfold readLinks, outcome, readErrors. rewrite getLinks_cases.
  destruct (truthy _) as [text|]; [|by rewrite logged_nil].
  destruct (JSON_parse text); [by rewrite logged_nil | done].
Qed.

(** A read logs only when it falls back to the empty collection. *)
Lemma readErrors_nonempty b : readLinks b ≠ Shaped [] → readErrors b = [].
Proof.
  unfold readLinks, outcome, readErrors. rewrite getLinks_cases.
  destruct (truthy _) as [text|]; [|done]. by destruct (JSON_parse text).
Qed.

Lemma readErrors_ill b : readLinks b = IllShaped → readErrors b = [].
Proof. intros Hill. apply readErrors_nonempty. by rewrite Hill. Qed.

Lemma saveLink_eq link b :
  shapedLinks b →
  saveLink link b
  = (Return (),
     run (setItem STORAGE_KEY (JSON_stringify (upsert link (storedLinks b))))
       (logged (readErrors b) b)).
Proof.
  intros Hshaped. unfold saveLink.
  rewrite (bind_returns _ _ _ _ _ (getLinks_run b)), Hshaped, bind_member_shaped.
  unfold upsert, firstWithId.
  pose proof (findIndex_find (λ l, bool_decide (id l = id link)) (storedLinks b))
    as Hfind.
  case_decide as Hi.
  - rewrite insert_findIndex by done. apply Hfind in Hi as [r ->]. done.
  - destruct (JsArray.find _ _) as [r|]; [|done].
    exfalso. apply Hi, Hfind. eauto.
Qed.

Lemma deleteLink_eq i b :
  shapedLinks b →
  deleteLink i b
  = (Return (),
     run (setItem STORAGE_KEY (JSON_stringify (without i (storedLinks b))))
       (logged (readErrors b) b)).
Proof.
  intros Hshaped. unfold deleteLink.
  rewrite (bind_returns _ _ _ _ _ (getLinks_run b)), Hshaped, bind_member_shaped.
  by rewrite JsArray_filter_without.
Qed.

Lemma incrementClicks_eq i b :
  shapedLinks b →
  incrementClicks i b
  = (Return (),
     match firstWithId i (storedLinks b) with
     | Some _ =>
         run (setItem STORAGE_KEY (JSON_stringify (bumpFirst i (storedLinks b))))
           (logged (readErrors b) b)
     | None => logged (readErrors b) b
     end).
Proof.
  intros Hshaped. unfold incrementClicks.
  rewrite (bind_returns _ _ _ _ _ (getLinks_run b)), Hshaped, bind_member_shaped.
  fold (firstWithId i (storedLinks b)).
  destruct (firstWithId i (storedLinks b)) as [r|] eqn:Hr; [|done].
  assert (readErrors b = []) as Hlog.
  { apply readErrors_nonempty. rewrite Hshaped. intros [= Hempty].
    by rewrite Hempty in Hr. }
  rewrite Hlog, logged_nil, saveLink_eq, Hlog, logged_nil by done.
  apply firstWithId_Some in Hr as Hid. destruct Hid as [Hid _].
  unfold upsert, bumpFirst. simpl. rewrite Hid, Hr. done.
Qed.

Lemma checkSlugExists_eq slug0 excludeId b :
  shapedLinks b →
  checkSlugExists slug0 excludeId b
  = (Return (JsArray.some
               (λ l, bool_decide (slug l = slug0)
                     && bool_decide (Some (id l) ≠ excludeId))
               (storedLinks b)),
     logged (readErrors b) b).
Proof.
  intros Hshaped. unfold checkSlugExists.
  by rewrite (bind_returns _ _ _ _ _ (getLinks_run b)), Hshaped.
Qed.

(** On a store that reads as no array, [links.some] throws. *)
Lemma checkSlugExists_ill slug0 excludeId b :
  readLinks b = IllShaped →
  checkSlugExists slug0 excludeId b = (Throw TypeError, b).
Proof.
  intros Hill. unfold checkSlugExists.
  rewrite (bind_returns _ _ _ _ _ (getLinks_run b)), Hill.
  by rewrite readErrors_ill, logged_nil.
Qed.

Lemma readSettings_ext_key b b' :
  localStorage b' !! SETTINGS_KEY = localStorage b !! SETTINGS_KEY →
  readSettings b' = readSettings b.
Proof.
  intros Heq. unfold readSettings, outcome.
  by rewrite !getSettings_cases, Heq.
Qed.

Lemma storedSettings_ext b b' :
  localStorage b' !! SETTINGS_KEY = localStorage b !! SETTINGS_KEY →
  storedSettings b' = storedSettings b.
Proof.
  intros Heq. unfold storedSettings. by rewrite (readSettings_ext_key b b').
Qed.

Lemma readLinks_ext_key b b' :
  localStorage b' !! STORAGE_KEY = localStorage b !! STORAGE_KEY →
  readLinks b' = readLinks b.
Proof.
  intros Heq. unfold readLinks, outcome. rewrite !getLinks_cases, Heq.
  destruct (truthy _) as [text|]; [|done]. by destruct (JSON_parse text).
Qed.

Lemma storedLinks_ext_key b b' :
  localStorage b' !! STORAGE_KEY = localStorage b !! STORAGE_KEY →
  storedLinks b' = storedLinks b.
Proof.
  intros Heq. unfold storedLinks. by rewrite (readLinks_ext_key b b').
Qed.

Lemma storedSettings_setItem_links text b :
  storedSettings (run (setItem STORAGE_KEY text) b) = storedSettings b.
Proof.
  apply storedSettings_ext. unfold run, setItem, modify, withLocalStorage.
  cbn [snd localStorage]. apply lookup_insert_ne, keys_distinct.
Qed.

Lemma saveLink_stored `{!JSONLaws (list ShortLink)} link b :
  shapedLinks b →
  storedLinks (run (saveLink link) b) = upsert link (storedLinks b).
Proof.
  intros Hshaped. unfold run at 1. rewrite saveLink_eq by done. cbn [snd].
  apply storedLinks_setItem.
Qed.

Lemma saveLink_shaped `{!JSONLaws (list ShortLink)} link b :
  shapedLinks b → shapedLinks (run (saveLink link) b).
Proof.
  intros Hshaped. unfold run. rewrite saveLink_eq by done. cbn [snd].
  apply shapedLinks_setItem.
Qed.

(** A store that reads as no array is left as it is, and still reads so. *)
Lemma saveLink_ill_run link b :
  readLinks b = IllShaped → run (saveLink link) b = b.
Proof. intros Hill. unfold run. by rewrite saveLink_ill. Qed.

Lemma deleteLink_stored `{!JSONLaws (list ShortLink)} i b :
  storedLinks (run (deleteLink i) b) = without i (storedLinks b).
Proof.
  unfold run at 1. destruct (readLinks_cases b) as [Hshaped|[Hill Hnone]].
  - rewrite deleteLink_eq by done. cbn [snd]. apply storedLinks_setItem.
  - rewrite deleteLink_ill by done. cbn [snd]. by rewrite Hnone.
Qed.

End StoreOperations.

Section StoreTheorems.
Context `{HL : JSON (list ShortLink)} `{HS : JSON AppSettings}.
Context {HLL : @JSONLaws (list ShortLink) HL} {HSL : @JSONLaws AppSettings HS}.



(** X3. [saveLink] keeps the identifiers of the collection distinct. *)
Theorem saveLink_keeps_ids_distinct (link : ShortLink) (b : Browser) :
  NoDup (ids (storedLinks b)) →
  NoDup (ids (storedLinks (run (saveLink link) b))).
Proof.
  intros Hnd. destruct (readLinks_cases b) as [Hshaped|[Hill _]].
  - rewrite saveLink_stored, ids_upsert by done.
    case_decide; [done |]. by apply NoDup_cons.
  - by rewrite (saveLink_ill_run link b Hill).
Qed.

(** X4. Saving the same record twice leaves the collection as saving it
    once does. *)
Theorem saveLink_twice (link : ShortLink) (b : Browser) :
  storedLinks (run (saveLink link) (run (saveLink link) b))
  = storedLinks (run (saveLink link) b).
Proof.
  destruct (readLinks_cases b) as [Hshaped|[Hill _]].
  - rewrite (saveLink_stored link (run (saveLink link) b))
      by by apply saveLink_shaped.
    by rewrite saveLink_stored, upsert_twice.
  - by rewrite !(saveLink_ill_run link b Hill).
Qed.


(** X6. Deleting a record that was just saved under a new identifier gives
    the collection back. *)
Theorem deleteLink_undoes_saveLink (link : ShortLink) (b : Browser) :
  id link ∉ ids (storedLinks b) →
  storedLinks (run (deleteLink (id link)) (run (saveLink link) b))
  = storedLinks b.
Proof.
  intros Hfresh. rewrite deleteLink_stored.
  destruct (readLinks_cases b) as [Hshaped|[Hill _]].
  - rewrite saveLink_stored by done. by apply without_upsert_fresh.
  - rewrite saveLink_ill_run by done. by apply without_absent.
Qed.

(** X7. When the text under the links key does not parse, the collection
    reads as empty, so a write replaces the text: [saveLink] leaves the
    text of the one-record collection, [deleteLink] the text of the empty
    one. [incrementClicks] writes nothing and leaves the text in place. *)
Theorem writes_replace_unreadable_text (text : jsstring) (link : ShortLink)
    (i : jsstring) (b : Browser) :
  localStorage b !! STORAGE_KEY = Some text →
  text ≠ [] →
  JSON_parse (A := list ShortLink) text = None →
  localStorage (run (saveLink link) b) !! STORAGE_KEY
  = Some (JSON_stringify [link])
  ∧ localStorage (run (deleteLink i) b) !! STORAGE_KEY
    = Some (JSON_stringify ([] : list ShortLink))
  ∧ localStorage (run (incrementClicks i) b) = localStorage b.
Proof.
  intros Htext Hne Hparse.
  assert (readLinks b = Shaped []) as Hread.
  { unfold readLinks, outcome. rewrite getLinks_cases, Htext.
    rewrite truthy_Some_nonempty by done. by rewrite Hparse. }
  assert (storedLinks b = []) as Hempty.
  { unfold storedLinks. by rewrite Hread. }
  assert (shapedLinks b) as Hshaped.
  { unfold shapedLinks. by rewrite Hempty. }
  unfold run.
  rewrite saveLink_eq, deleteLink_eq, incrementClicks_eq, Hempty by done.
  cbn [snd]. unfold run, setItem, modify, withLocalStorage.
  cbn [snd localStorage]. by rewrite !lookup_insert_eq.
Qed.



(** X10. Click increments for two different identifiers commute. *)
Theorem incrementClicks_commute (i j : jsstring) (b : Browser) :
  i ≠ j →
  storedLinks (run (incrementClicks i) (run (incrementClicks j) b))
  = storedLinks (run (incrementClicks j) (run (incrementClicks i) b)).
Proof.
  intros Hij. rewrite !incrementClicks_stored. by apply bumpFirst_comm.
Qed.

Lemma storedSettings_logged msgs b :
  storedSettings (logged msgs b) = storedSettings b.
Proof. by apply storedSettings_ext. Qed.

Lemma storedSettings_saveLink link b :
  storedSettings (run (saveLink link) b) = storedSettings b.
Proof.
  destruct (readLinks_cases b) as [Hshaped|[Hill _]].
  - unfold run at 1. rewrite saveLink_eq by done. cbn [snd].
    by rewrite storedSettings_setItem_links, storedSettings_logged.
  - by rewrite (saveLink_ill_run link b Hill).
Qed.

Lemma storedSettings_deleteLink i b :
  storedSettings (run (deleteLink i) b) = storedSettings b.
Proof.
  unfold run at 1. destruct (readLinks_cases b) as [Hshaped|[Hill _]].
  - rewrite deleteLink_eq by done. cbn [snd].
    by rewrite storedSettings_setItem_links, storedSettings_logged.
  - by rewrite deleteLink_ill.
Qed.

Lemma storedSettings_incrementClicks i b :
  storedSettings (run (incrementClicks i) b) = storedSettings b.
Proof.
  unfold run at 1. destruct (readLinks_cases b) as [Hshaped|[Hill _]].
  - rewrite incrementClicks_eq by done. cbn [snd].
    destruct (firstWithId _ _);
      by rewrite ?storedSettings_setItem_links, storedSettings_logged.
  - by rewrite incrementClicks_ill.
Qed.

Lemma saveSettings_read s b :
  readSettings (run (saveSettings s) b) = Shaped s
  ∧ readLinks (run (saveSettings s) b) = readLinks b.
Proof.
  split.
  - unfold readSettings, outcome. rewrite getSettings_cases.
    unfold run, saveSettings, setItem, modify, withLocalStorage.
    cbn [snd localStorage].
    rewrite lookup_insert_eq, truthy_Some_nonempty by apply stringify_nonempty.
    by rewrite parse_stringify.
  - apply readLinks_ext_key.
    unfold run, saveSettings, setItem, modify, withLocalStorage.
    cbn [snd localStorage]. apply lookup_insert_ne. by intros Heq%eq_sym%keys_distinct.
Qed.

Lemma saveSettings_stored s b :
  storedSettings (run (saveSettings s) b) = s
  ∧ storedLinks (run (saveSettings s) b) = storedLinks b.
Proof.
  destruct (saveSettings_read s b) as [Hs Hl].
  unfold storedSettings, storedLinks. by rewrite Hs, Hl.
Qed.

(** X11. The settings round-trip through the store: [getSettings] after
    [saveSettings s] reads [s]. The two keys are independent: saving the
    settings leaves the links as they are, and no operation on the links
    changes the settings. *)
Theorem settings_round_trip (s : AppSettings) (link : ShortLink)
    (i : jsstring) (b : Browser) :
  outcome getSettings (run (saveSettings s) b) = Return (Shaped s)
  ∧ storedLinks (run (saveSettings s) b) = storedLinks b
  ∧ storedSettings (run (saveLink link) b) = storedSettings b
  ∧ storedSettings (run (deleteLink i) b) = storedSettings b
  ∧ storedSettings (run (incrementClicks i) b) = storedSettings b.
Proof.
  destruct (saveSettings_read s b) as [Hs _].
  destruct (saveSettings_stored s b) as [_ Hl].
  split_and!.
  - unfold outcome. rewrite getSettings_read. by rewrite Hs.
  - done.
  - apply storedSettings_saveLink.
  - apply storedSettings_deleteLink.
  - apply storedSettings_incrementClicks.
Qed.

(** X12. A read of the links calls [console.error] once, and does nothing
    else, when the stored text is not empty and does not parse; in every
    other case (no text, the empty text, a text that parses) it leaves the
    browser as it is. A read of the settings never logs. *)
Theorem reads_log_only_failures (b : Browser) :
  (∀ text, localStorage b !! STORAGE_KEY = Some text →
     text ≠ [] →
     JSON_parse (A := list ShortLink) text = None →
     run getLinks b = logged [str "Failed to load links"] b)
  ∧ ((∀ text, localStorage b !! STORAGE_KEY = Some text →
        text ≠ [] →
        is_Some (JSON_parse (A := list ShortLink) text)) →
     run getLinks b = b)
  ∧ run getSettings b = b.
Proof.
  unfold run. rewrite getLinks_run, getSettings_read. cbn [snd].
  unfold readErrors. split_and!; [| |done].
  - intros text -> Hne Hparse.
    rewrite truthy_Some_nonempty by done. by rewrite Hparse.
  - intros Hok. destruct (localStorage b !! STORAGE_KEY) as [text|] eqn:Htext;
      [|by rewrite logged_nil].
    destruct text as [|c text]; [by rewrite logged_nil |].
    destruct (Hok (c :: text) eq_refl) as [ls Hls]; [done |].
    cbn [truthy]. by rewrite Hls, logged_nil.
Qed.

End StoreTheorems.

(** * Further properties of the analytics collaborator *)

Section AnalyticsTheorems.

Lemma initGA_eq gaId b :
  initGA gaId b
  = (Return (),
     if bool_decide (gaId = []) || gtag b then b
     else mkBrowser (localStorage b) (console b) (href b) (hash b) (dbJson b)
            (confirmReply b) true (headScripts b ++ [gtagScript gaId])
            (dataLayer b ++ [GtagJs; GtagConfig gaId]) (timers b)).
Proof.
  unfold initGA, bind, gets, modify, ret, gtagScript, installGtag, gtagPush.
  cbn. destruct (bool_decide (gaId = []) || gtag b); [done |].
  cbn. by rewrite <-(assoc_L (++)).
Qed.

Lemma trackRedirect_eq gaId slug0 target b :
  trackRedirect gaId slug0 target b
  = (Return (),
     if gtag b
     then mkBrowser (localStorage b) (console b) (href b) (hash b) (dbJson b)
            (confirmReply b) (gtag b) (headScripts b)
            (dataLayer b ++ [GtagEvent slug0 target; GtagPageView gaId slug0])
            (timers b)
     else b).
Proof.
  unfold trackRedirect, bind, gets, modify, ret, gtagPush. cbn.
  destruct (gtag b) eqn:Hg; [|done].
  cbn. by rewrite Hg, <-(assoc_L (++)).
Qed.

(** X13. [initGA] on a browser without [gtag], for a measurement identifier
    that is not empty, defines [gtag], adds the one script of that
    identifier and queues the two start-up calls; for the empty identifier,
    or with [gtag] defined, it does nothing. It never writes to the store
    and sets no timer. *)
Theorem initGA_effect (gaId : jsstring) (b : Browser) :
  outcome (initGA gaId) b = Return ()
  ∧ (gaId ≠ [] → gtag b = false →
     gtag (run (initGA gaId) b) = true
     ∧ headScripts (run (initGA gaId) b) = headScripts b ++ [gtagScript gaId]
     ∧ dataLayer (run (initGA gaId) b)
       = dataLayer b ++ [GtagJs; GtagConfig gaId])
  ∧ (gaId = [] ∨ gtag b = true → run (initGA gaId) b = b)
  ∧ localStorage (run (initGA gaId) b) = localStorage b
  ∧ timers (run (initGA gaId) b) = timers b.
Proof.
  unfold outcome, run. rewrite initGA_eq. cbn [fst snd]. split_and!.
  - done.
  - intros Hne ->. by rewrite bool_decide_eq_false_2.
  - intros [->| ->]; [done |]. by rewrite orb_true_r.
  - by destruct (_ || _).
  - by destruct (_ || _).
Qed.

(** X14. Analytics start once: after [initGA] for a measurement identifier
    that is not empty, a second [initGA], for the same or for another
    identifier, changes nothing. *)
Theorem initGA_once (first second : jsstring) (b : Browser) :
  first ≠ [] →
  run (initGA second) (run (initGA first) b) = run (initGA first) b.
Proof.
  intros Hne. unfold run. rewrite (initGA_eq first). cbn [snd].
  rewrite initGA_eq. cbn [snd].
  rewrite (bool_decide_eq_false_2 (first = [])) by done. cbn [orb].
  destruct (gtag b) eqn:Hg.
  - by rewrite Hg, orb_true_r.
  - cbn [gtag]. by rewrite orb_true_r.
Qed.

(** X15. [trackRedirect] without [gtag] drops the visit: the browser stays
    as it is. With [gtag] it queues the visit event and the page view, in
    this order, and changes nothing else. *)
Theorem trackRedirect_effect (gaId slug0 target : jsstring) (b : Browser) :
  outcome (trackRedirect gaId slug0 target) b = Return ()
  ∧ (gtag b = false → run (trackRedirect gaId slug0 target) b = b)
  ∧ (gtag b = true →
     dataLayer (run (trackRedirect gaId slug0 target) b)
     = dataLayer b ++ [GtagEvent slug0 target; GtagPageView gaId slug0])
  ∧ localStorage (run (trackRedirect gaId slug0 target) b) = localStorage b
  ∧ headScripts (run (trackRedirect gaId slug0 target) b) = headScripts b
  ∧ timers (run (trackRedirect gaId slug0 target) b) = timers b.
Proof.
  unfold outcome, run. rewrite trackRedirect_eq. cbn [fst snd].
  split_and!; [done | by intros -> | by intros -> | by destruct (gtag b)..].
Qed.

End AnalyticsTheorems.

(** * Further properties of the component *)

Section LoadFacts.
Context {Mode : Type}.
Context `{HL : JSON (list ShortLink)} `{HS : JSON AppSettings}.
Implicit Types w : World Mode.

Lemma snapshotOf_ext b b' :
  localStorage b' = localStorage b → dbJson b' = dbJson b →
  snapshotOf b' = snapshotOf b.
Proof.
  intros Hls Hdb. unfold snapshotOf.
  by rewrite Hdb, (storedLinks_ext b b').
Qed.

Lemma readErrors_ext b b' :
  localStorage b' = localStorage b → readErrors b' = readErrors b.
Proof. intros Hls. unfold readErrors. by rewrite Hls. Qed.

Lemma loadMergedLinks_eq w :
  shapedLinks (browser w) →
  loadMergedLinks w
  = (Return (snapshotOf (browser w)),
     mkWorld (logged (readErrors (browser w)) (browser w)) (app w)).
Proof.
  intros Hshaped. unfold loadMergedLinks, snapshotOf.
  rewrite (bind_returns _ _ _ _ _
             (liftB_returns _ _ _ _ (getLinks_run (browser w)))), Hshaped.
  unfold bind, tryCatch, liftB, gets, parseJSON. cbn [browser app dbJson logged].
  destruct (dbJson (browser w)) as [|[] body]; [done | | done].
  by destruct (JSON_parse body) as [[staticLinks|]|].
Qed.

Lemma detectEnvironment_eq w :
  detectEnvironment w
  = (Return (),
     mkWorld (browser w)
       (mkAppState (mode (app w)) (links (app w)) (settings (app w))
          (splitHead 63 (splitHead 35 (href (browser w))))
          (startsWith (href (browser w)) (str "blob:"))
          (redirectData (app w)))).
Proof. reflexivity. Qed.


End LoadFacts.

Module AppNotFoundMore.
Import AppNotFound.

Section WithJSON.
Context `{HL : JSON (list ShortLink)} `{HS : JSON AppSettings}.
Implicit Types w : World AppMode.

Lemma analyticsStarted_frame s b :
  localStorage (analyticsStarted s b) = localStorage b
  ∧ timers (analyticsStarted s b) = timers b
  ∧ hash (analyticsStarted s b) = hash b
  ∧ dbJson (analyticsStarted s b) = dbJson b.
Proof.
  unfold analyticsStarted. destruct (truthy _) as [gaId|]; [|done].
  unfold run. rewrite initGA_eq. cbn [snd]. by destruct (_ || _).
Qed.

Lemma startAnalytics_eq (s : AppSettings) w :
  match truthy (googleAnalyticsId s) with
  | Some gaId => liftB (initGA gaId)
  | None => ret ()
  end w = (Return (), mkWorld (analyticsStarted s (browser w)) (app w)).
Proof.
  unfold analyticsStarted. destruct (truthy (googleAnalyticsId s)) as [gaId|].
  - apply liftB_returns. unfold run. by rewrite initGA_eq.
  - by destruct w.
Qed.

(** What steps 1 and 2 of the bootstrap return and leave behind, on a
    store that reads as a settings object and an array of links. *)
Lemma loadAll_eq w :
  shapedSettings (browser w) → shapedLinks (browser w) →
  ∃ b1 a1,
    loadAll w
    = (Return (storedSettings (browser w), snapshotOf (browser w)),
       mkWorld b1 a1)
    ∧ localStorage b1 = localStorage (browser w)
    ∧ timers b1 = timers (browser w)
    ∧ hash b1 = hash (browser w)
    ∧ mode a1 = mode (app w)
    ∧ links a1 = snapshotOf (browser w)
    ∧ settings a1 = Shaped (storedSettings (browser w))
    ∧ redirectData a1 = redirectData (app w).
Proof.
  intros Hsettings Hlinks. unfold loadAll.
  rewrite (bind_returns _ _ _ _ _ (detectEnvironment_eq w)).
  match goal with |- context [bind _ _ ?w0] => set (w1 := w0) end.
  pose proof (liftB_returns getSettings w1 _ _ (getSettings_read (browser w)))
    as Hget.
  rewrite (bind_returns _ _ _ _ _ Hget), Hsettings.
  unfold bind at 1, setSettings, setApp, modify. cbn [browser app].
  rewrite bind_member_shaped.
  rewrite (bind_returns _ _ _ _ _ (startAnalytics_eq _ _)).
  destruct (analyticsStarted_frame (storedSettings (browser w)) (browser w))
    as (Hls & Htimers & Hhash & Hdb).
  assert (shapedLinks
            (analyticsStarted (storedSettings (browser w)) (browser w)))
    as Hlinks1 by by apply (shapedLinks_ext (browser w)).
  rewrite (bind_returns _ _ _ _ _ (loadMergedLinks_eq (mkWorld _ _) Hlinks1)).
  cbn [browser app].
  rewrite (snapshotOf_ext (browser w) _ Hls Hdb).
  do 2 eexists. split; [reflexivity |]. cbn. done.
Qed.

Lemma incrementClicks_returns i b :
  shapedLinks b →
  incrementClicks i b = (Return (), run (incrementClicks i) b).
Proof. intros Hshaped. unfold run. by rewrite incrementClicks_eq. Qed.

Lemma timers_incrementClicks i b : timers (run (incrementClicks i) b) = timers b.
Proof.
  unfold run. destruct (readLinks_cases b) as [Hshaped|[Hill _]].
  - rewrite incrementClicks_eq by done. cbn [snd].
    by destruct (firstWithId _ _).
  - by rewrite incrementClicks_ill.
Qed.

Lemma trackStep_eq (s : AppSettings) (m : ShortLink) w :
  ∃ b',
    match truthy (googleAnalyticsId s) with
    | Some gaId => liftB (trackRedirect gaId (slug m) (originalUrl m))
    | None => ret ()
    end w = (Return (), mkWorld b' (app w))
    ∧ localStorage b' = localStorage (browser w)
    ∧ timers b' = timers (browser w).
Proof.
  destruct (truthy (googleAnalyticsId s)) as [gaId|].
  - eexists. split; [apply liftB_returns, trackRedirect_eq |].
    by destruct (gtag (browser w)).
  - exists (browser w). by destruct w.
Qed.

Lemma routing_empty s ml w :
  substring1 (hash (browser w)) = [] →
  routing s ml w = setMode DASHBOARD w.
Proof.
  intros Hraw. unfold routing.
  by rewrite (bind_returns _ _ _ _ _ (liftB_gets _ _)), Hraw.
Qed.

(** The redirect branch of the routing. *)
Lemma routing_found s ml w rawHash h m :
  shapedLinks (browser w) →
  substring1 (hash (browser w)) = rawHash →
  rawHash ≠ [] →
  decodeURIComponent rawHash = Some h →
  findBySlug h ml = Some m →
  ∃ b3,
    routing s ml w
    = (Return (),
       mkWorld b3
         (mkAppState REDIRECT_PROCESS (links (app w)) (settings (app w))
            (detectedUrl (app w)) (isBlob (app w))
            (Some (originalUrl m, slug m))))
    ∧ localStorage b3
      = localStorage (run (incrementClicks (id m)) (browser w))
    ∧ timers b3 = timers (browser w) ++ [mkTimer 150 (originalUrl m)].
Proof.
  intros Hshaped Hraw Hne Hdec Hfind. unfold routing.
  rewrite (bind_returns _ _ _ _ _ (liftB_gets _ _)), Hraw.
  destruct rawHash as [|c raw]; [done |].
  assert (resolve (c :: raw) ml w = (Return (Some m), w)) as Hres.
  { unfold resolve. by rewrite Hdec, Hfind. }
  rewrite (bind_returns _ _ _ _ _ Hres).
  unfold bind at 1, setRedirectData, setApp, modify. cbn [browser app].
  unfold bind at 1, setMode, setApp, modify.
  cbn [browser app mode links settings detectedUrl isBlob redirectData].
  match goal with |- context [bind _ _ ?w0] => set (w2 := w0) end.
  pose proof (liftB_returns _ w2 _ _
                (incrementClicks_returns (id m) (browser w) Hshaped))
    as Hclicks.
  rewrite (bind_returns _ _ _ _ _ Hclicks).
  match goal with |- context [bind _ _ ?w0] => set (w3 := w0) end.
  destruct (trackStep_eq s m w3) as (b' & Htrack & Hls & Htimers).
  rewrite (bind_returns _ _ _ _ _ Htrack).
  subst w3 w2. cbn [browser app] in *.
  unfold setTimeout, liftB, modify. cbn [browser app].
  eexists. split; [reflexivity |]. cbn [localStorage timers].
  by rewrite Hls, Htimers, timers_incrementClicks.
Qed.

Lemma initApp_links w :
  shapedSettings (browser w) → shapedLinks (browser w) →
  links (app (run initApp w)) = snapshotOf (browser w).
Proof.
  intros Hsettings Hshaped.
  destruct (loadAll_eq w Hsettings Hshaped)
    as (b1 & a1 & Hload & _ & _ & _ & _ & Hlinks & _).
  unfold run, initApp. rewrite (bind_returns _ _ _ _ _ Hload). cbn [fst snd].
  pose proof (AppNotFoundFacts.routing_keepsLinks
                (storedSettings (browser w)) (snapshotOf (browser w))
                (mkWorld b1 a1)) as Hkeep.
  unfold run in Hkeep. by rewrite Hkeep.
Qed.

(** X16. On a store that reads as a settings object and an array of
    links, with no fragment in the address, the bootstrap returns on the
    dashboard: it sets no redirect, schedules no navigation and writes
    nothing to the store. *)
Theorem initApp_no_fragment_dashboard w :
  shapedSettings (browser w) → shapedLinks (browser w) →
  substring1 (hash (browser w)) = [] →
  outcome initApp w = Return ()
  ∧ mode (app (run initApp w)) = DASHBOARD
  ∧ redirectData (app (run initApp w)) = redirectData (app w)
  ∧ timers (browser (run initApp w)) = timers (browser w)
  ∧ localStorage (browser (run initApp w)) = localStorage (browser w).
Proof.
  intros Hsettings Hshaped Hraw.
  destruct (loadAll_eq w Hsettings Hshaped)
    as (b1 & a1 & Hload & Hls & Htimers & Hhash & _ & _ & _ & Hredirect).
  unfold outcome, run, initApp. rewrite (bind_returns _ _ _ _ _ Hload).
  cbn [fst snd]. rewrite routing_empty by (cbn [browser]; congruence).
  cbn. done.
Qed.

(** X17. On a store that reads as a settings object and an array of
    links, when the decoded fragment is the slug of a record of the
    snapshot, the bootstrap returns in [REDIRECT_PROCESS] with that
    record's target and slug as the redirect, and with exactly one new
    timer: the navigation to the target after 150 ms. *)
Theorem initApp_match_redirects w (rawHash h : jsstring) (m : ShortLink) :
  shapedSettings (browser w) → shapedLinks (browser w) →
  substring1 (hash (browser w)) = rawHash →
  rawHash ≠ [] →
  decodeURIComponent rawHash = Some h →
  findBySlug h (links (app (run initApp w))) = Some m →
  outcome initApp w = Return ()
  ∧ mode (app (run initApp w)) = REDIRECT_PROCESS
  ∧ redirectData (app (run initApp w)) = Some (originalUrl m, slug m)
  ∧ timers (browser (run initApp w))
    = timers (browser w) ++ [mkTimer 150 (originalUrl m)].
Proof.
  intros Hsettings Hshaped Hraw Hne Hdec Hfind.
  rewrite initApp_links in Hfind by done.
  destruct (loadAll_eq w Hsettings Hshaped)
    as (b1 & a1 & Hload & Hls & Htimers & Hhash & _ & _ & _ & _).
  unfold outcome, run, initApp. rewrite (bind_returns _ _ _ _ _ Hload).
  cbn [fst snd].
  destruct (routing_found (storedSettings (browser w)) (snapshotOf (browser w))
              (mkWorld b1 a1) rawHash h m) as (b3 & -> & _ & Ht);
    [by apply (shapedLinks_ext (browser w)) | cbn [browser]; congruence
    | done..|].
  cbn [fst snd browser app mode redirectData] in *.
  split_and!; [done..|]. by rewrite Ht, Htimers.
Qed.

(** X18. The click of a redirect is counted in the local store only, on
    a store that reads as a settings object and an array of links: when
    the matched record is in the local store, with a click count in the
    range that JavaScript numbers hold exactly (below 2^53), its stored
    click count goes up by one; when it comes from the baseline alone,
    nothing is written and the click is not recorded. *)
Theorem initApp_counts_local_clicks `{!JSONLaws (list ShortLink)}
    w (rawHash h : jsstring) (m : ShortLink) :
  shapedSettings (browser w) → shapedLinks (browser w) →
  substring1 (hash (browser w)) = rawHash →
  rawHash ≠ [] →
  decodeURIComponent rawHash = Some h →
  findBySlug h (links (app (run initApp w))) = Some m →
  (∀ r, firstWithId (id m) (storedLinks (browser w)) = Some r →
     - 2 ^ 53 ≤ clicks r < 2 ^ 53 →
     firstWithId (id m) (storedLinks (browser (run initApp w)))
     = Some (addClicks 1 r))
  ∧ (id m ∉ ids (storedLinks (browser w)) →
     localStorage (browser (run initApp w)) = localStorage (browser w)).
Proof.
  intros Hsettings Hshaped Hraw Hne Hdec Hfind.
  rewrite initApp_links in Hfind by done.
  destruct (loadAll_eq w Hsettings Hshaped)
    as (b1 & a1 & Hload & Hls & Htimers & Hhash & _ & _ & _ & _).
  unfold run, initApp. rewrite (bind_returns _ _ _ _ _ Hload).
  cbn [fst snd].
  destruct (routing_found (storedSettings (browser w)) (snapshotOf (browser w))
              (mkWorld b1 a1) rawHash h m) as (b3 & -> & Hls3 & _);
    [by apply (shapedLinks_ext (browser w)) | cbn [browser]; congruence
    | done..|].
  cbn [snd browser] in *.
  assert (storedLinks b1 = storedLinks (browser w)) as Hstored
    by by apply storedLinks_ext.
  split.
  - intros r Hr [Hlo Hhi]. rewrite (storedLinks_ext _ b3 Hls3).
    rewrite incrementClicks_stored, firstWithId_bumpFirst, Hstored, Hr.
    rewrite decide_True by done. csimpl. by rewrite bumpClicks_exact.
  - intros Habsent. rewrite Hls3, <-Hls.
    apply incrementClicks_absent. by rewrite Hstored.
Qed.


End WithJSON.

End AppNotFoundMore.

Module AppMore.
Import App.

Section WithJSON.
Context `{HL : JSON (list ShortLink)} `{HS : JSON AppSettings}.
Implicit Types w : World AppMode.

(** What steps 1 to 3 of the bootstrap of [src/App.tsx] return and leave
    behind. *)
Lemma earlier_loadAll_eq w :
  shapedLinks (browser w) →
  ∃ b1 a1,
    loadAll w = (Return (snapshotOf (browser w)), mkWorld b1 a1)
    ∧ localStorage b1 = localStorage (browser w)
    ∧ timers b1 = timers (browser w)
    ∧ hash b1 = hash (browser w)
    ∧ mode a1 = mode (app w)
    ∧ links a1 = snapshotOf (browser w)
    ∧ redirectData a1 = redirectData (app w).
Proof.
  intros Hshaped. unfold loadAll.
  rewrite (bind_returns _ _ _ _ _
             (liftB_returns getSettings w _ _ (getSettings_read (browser w)))).
  unfold bind at 1, setSettings, setApp, modify. cbn [browser app].
  rewrite (bind_returns _ _ _ _ _ (detectEnvironment_eq _)).
  cbn [browser app].
  rewrite (bind_returns _ _ _ _ _
             (loadMergedLinks_eq (mkWorld (browser w) _) Hshaped)).
  cbn [browser app].
  do 2 eexists. split; [reflexivity |]. cbn. done.
Qed.

Lemma earlier_initApp_links w :
  shapedLinks (browser w) →
  links (app (run initApp w)) = snapshotOf (browser w).
Proof.
  intros Hshaped.
  destruct (earlier_loadAll_eq w Hshaped)
    as (b1 & a1 & Hload & _ & _ & _ & _ & Hlinks & _).
  unfold run, initApp. rewrite (bind_returns _ _ _ _ _ Hload).
  pose proof (AppFacts.checkRedirectHash_keepsLinks (snapshotOf (browser w))
                (mkWorld b1 a1)) as Hkeep.
  unfold run in Hkeep. by rewrite Hkeep.
Qed.

Lemma checkRedirectHash_found ml w rawHash h m :
  shapedLinks (browser w) →
  substring1 (hash (browser w)) = rawHash →
  rawHash ≠ [] →
  decodeURIComponent rawHash = Some h →
  findBySlug h ml = Some m →
  checkRedirectHash ml w
  = (Return (),
     mkWorld
       (mkBrowser (localStorage (run (incrementClicks (id m)) (browser w)))
          (console (run (incrementClicks (id m)) (browser w)))
          (href (run (incrementClicks (id m)) (browser w)))
          (hash (run (incrementClicks (id m)) (browser w)))
          (dbJson (run (incrementClicks (id m)) (browser w)))
          (confirmReply (run (incrementClicks (id m)) (browser w)))
          (gtag (run (incrementClicks (id m)) (browser w)))
          (headScripts (run (incrementClicks (id m)) (browser w)))
          (dataLayer (run (incrementClicks (id m)) (browser w)))
          (timers (run (incrementClicks (id m)) (browser w))
           ++ [mkTimer 800 (originalUrl m)]))
       (mkAppState REDIRECTING (links (app w)) (settings (app w))
          (detectedUrl (app w)) (isBlob (app w))
          (Some (originalUrl m, slug m)))).
Proof.
  intros Hshaped Hraw Hne Hdec Hfind. unfold checkRedirectHash.
  rewrite (bind_returns _ _ _ _ _ (liftB_gets _ _)), Hraw.
  destruct rawHash as [|c raw]; [done |].
  assert (resolve (c :: raw) ml w = (Return (Some m), w)) as Hres.
  { unfold resolve. by rewrite Hdec, Hfind. }
  rewrite (bind_returns _ _ _ _ _ Hres).
  unfold bind at 1, setRedirectData, setApp, modify. cbn [browser app].
  unfold bind at 1, setMode, setApp, modify.
  cbn [browser app mode links settings detectedUrl isBlob redirectData].
  match goal with |- context [bind _ _ ?w0] => set (w2 := w0) end.
  pose proof (liftB_returns _ w2 _ _
                (AppNotFoundMore.incrementClicks_returns (id m) (browser w)
                   Hshaped))
    as Hclicks.
  rewrite (bind_returns _ _ _ _ _ Hclicks). subst w2. reflexivity.
Qed.

(** X20. On a store that reads as a settings object and an array of
    links, the bootstrap of [src/App.tsx] routes three ways. With no
    fragment it returns on the dashboard and neither writes to the store
    nor sets a timer. With a fragment that decodes to the slug of a record
    of the snapshot it returns in [REDIRECTING] with that record as the
    redirect and one new timer, the navigation after 800 ms. With a
    fragment that decodes to no slug of the snapshot it returns on the
    dashboard as well: this revision has no not-found mode. On a store
    whose links read as no array it throws a [TypeError] and stays in the
    mode it started in. *)
Theorem earlier_initApp_routes w (rawHash : jsstring) :
  substring1 (hash (browser w)) = rawHash →
  (readLinks (browser w) = IllShaped →
   outcome initApp w = Throw TypeError
   ∧ mode (app (run initApp w)) = mode (app w)
   ∧ links (app (run initApp w)) = links (app w)) ∧
  (shapedSettings (browser w) → shapedLinks (browser w) →
  (rawHash = [] →
   outcome initApp w = Return ()
   ∧ mode (app (run initApp w)) = DASHBOARD
   ∧ timers (browser (run initApp w)) = timers (browser w)
   ∧ localStorage (browser (run initApp w)) = localStorage (browser w))
  ∧ (∀ h m,
       rawHash ≠ [] →
       decodeURIComponent rawHash = Some h →
       findBySlug h (links (app (run initApp w))) = Some m →
       outcome initApp w = Return ()
       ∧ mode (app (run initApp w)) = REDIRECTING
       ∧ redirectData (app (run initApp w)) = Some (originalUrl m, slug m)
       ∧ timers (browser (run initApp w))
         = timers (browser w) ++ [mkTimer 800 (originalUrl m)])
  ∧ (∀ h,
       rawHash ≠ [] →
       decodeURIComponent rawHash = Some h →
       findBySlug h (links (app (run initApp w))) = None →
       outcome initApp w = Return ()
       ∧ mode (app (run initApp w)) = DASHBOARD)).
Proof.
  intros Hraw. split; [apply AppFacts.earlier_initApp_throws |].
  intros _ Hshaped. rewrite earlier_initApp_links by done.
  destruct (earlier_loadAll_eq w Hshaped)
    as (b1 & a1 & Hload & Hls & Htimers & Hhash & _ & _ & _).
  unfold outcome, run, initApp. rewrite (bind_returns _ _ _ _ _ Hload).
  assert (substring1 (hash (browser (mkWorld b1 a1))) = rawHash) as Hraw1
    by (cbn [browser]; congruence).
  split_and!.
  - intros ->. unfold checkRedirectHash.
    rewrite (bind_returns _ _ _ _ _ (liftB_gets _ _)), Hraw1. cbn. done.
  - intros h m Hne Hdec Hfind.
    rewrite (checkRedirectHash_found _ (mkWorld b1 a1) rawHash h m
               (shapedLinks_ext _ b1 Hls Hshaped) Hraw1 Hne Hdec Hfind).
    cbn [fst snd browser app mode redirectData timers].
    by rewrite AppNotFoundMore.timers_incrementClicks, Htimers.
  - intros h Hne Hdec Hfind. unfold checkRedirectHash.
    rewrite (bind_returns _ _ _ _ _ (liftB_gets _ _)), Hraw1.
    destruct rawHash as [|c raw]; [done |].
    assert (resolve (c :: raw) (snapshotOf (browser w)) (mkWorld b1 a1)
            = (Return None, mkWorld b1 a1)) as Hres.
    { unfold resolve. by rewrite Hdec, Hfind. }
    rewrite (bind_returns _ _ _ _ _ Hres). done.
Qed.

End WithJSON.

End AppMore.

Section ViewTheorems.
Context {Mode : Type}.
Context `{HL : JSON (list ShortLink)} `{HS : JSON AppSettings}.
Context {HLL : @JSONLaws (list ShortLink) HL} {HSL : @JSONLaws AppSettings HS}.
Implicit Types w : World Mode.



Lemma refreshLinks_eq w :
  shapedLinks (browser w) →
  refreshLinks w
  = (Return (),
     mkWorld (logged (readErrors (browser w)) (browser w))
       (mkAppState (mode (app w))
          (merge (links (app w)) (storedLinks (browser w)))
          (settings (app w)) (detectedUrl (app w)) (isBlob (app w))
          (redirectData (app w)))).
Proof.
  intros Hshaped. unfold refreshLinks.
  by rewrite (bind_returns _ _ _ _ _
                (liftB_returns _ _ _ _ (getLinks_run (browser w)))), Hshaped.
Qed.


Lemma handleCreate_eq newLink w :
  shapedLinks (browser w) →
  ∃ b',
    handleCreate newLink w
    = (Return (),
       mkWorld b'
         (mkAppState (mode (app w))
            (merge (links (app w)) (upsert newLink (storedLinks (browser w))))
            (settings (app w)) (detectedUrl (app w)) (isBlob (app w))
            (redirectData (app w))))
    ∧ storedLinks b' = upsert newLink (storedLinks (browser w))
    ∧ storedSettings b' = storedSettings (browser w)
    ∧ timers b' = timers (browser w).
Proof.
  intros Hshaped. unfold handleCreate.
  rewrite (bind_returns _ _ _ _ _
             (liftB_returns _ _ _ _ (saveLink_eq newLink (browser w) Hshaped))).
  pose proof (saveLink_shaped newLink (browser w) Hshaped) as Hshaped1.
  pose proof (saveLink_stored newLink (browser w) Hshaped) as Hstored.
  unfold run at 1 in Hshaped1. unfold run at 1 in Hstored.
  rewrite saveLink_eq in Hshaped1, Hstored by done.
  cbn [snd] in Hshaped1, Hstored.
  rewrite refreshLinks_eq by done. cbn [browser app].
  rewrite Hstored.
  match goal with |- context [logged (readErrors ?b0) ?b0] => set (b1 := b0) in * end.
  exists (logged (readErrors b1) b1). split; [reflexivity |]. split_and!.
  - by rewrite (storedLinks_ext b1 (logged (readErrors b1) b1)).
  - rewrite storedSettings_logged. subst b1.
    rewrite storedSettings_setItem_links. apply storedSettings_logged.
  - done.
Qed.




End ViewTheorems.

Section SettingsTheorems.
Context `{HL : JSON (list ShortLink)} `{HS : JSON AppSettings}.
Context {HSL : @JSONLaws AppSettings HS}.

Lemma saveSettings_returns s b :
  saveSettings s b = (Return (), run (saveSettings s) b).
Proof. reflexivity. Qed.

Lemma setSettings_eq {Mode} s (w : World Mode) :
  setSettings s w
  = (Return (),
     mkWorld (browser w)
       (mkAppState (mode (app w)) (links (app w)) s (detectedUrl (app w))
          (isBlob (app w)) (redirectData (app w)))).
Proof. reflexivity. Qed.

(** X24. [handleSaveSettings] makes the new settings the settings of the
    component and of the store, in both revisions, and leaves the links of
    the store as they are. In the revision with analytics, a measurement
    identifier saved while [gtag] is already defined is not passed on:
    the queue of [gtag] calls and the loaded scripts stay as they are. *)
Theorem handleSaveSettings_saves (newSettings : AppSettings)
    (w : World AppNotFound.AppMode) (w0 : World App.AppMode) :
  (outcome (AppNotFound.handleSaveSettings newSettings) w = Return ()
   ∧ settings (app (run (AppNotFound.handleSaveSettings newSettings) w))
     = Shaped newSettings
   ∧ storedSettings (browser (run (AppNotFound.handleSaveSettings newSettings) w))
     = newSettings
   ∧ storedLinks (browser (run (AppNotFound.handleSaveSettings newSettings) w))
     = storedLinks (browser w)
   ∧ (gtag (browser w) = true →
      dataLayer (browser (run (AppNotFound.handleSaveSettings newSettings) w))
      = dataLayer (browser w)
      ∧ headScripts (browser (run (AppNotFound.handleSaveSettings newSettings) w))
        = headScripts (browser w)))
  ∧ (outcome (App.handleSaveSettings newSettings) w0 = Return ()
     ∧ settings (app (run (App.handleSaveSettings newSettings) w0))
       = Shaped newSettings
     ∧ storedSettings (browser (run (App.handleSaveSettings newSettings) w0))
       = newSettings
     ∧ storedLinks (browser (run (App.handleSaveSettings newSettings) w0))
       = storedLinks (browser w0)).
Proof.
  destruct (saveSettings_stored newSettings (browser w)) as [Hs Hl].
  destruct (saveSettings_stored newSettings (browser w0)) as [Hs0 Hl0].
  split.
  - unfold outcome, run, AppNotFound.handleSaveSettings.
    rewrite (bind_returns _ _ _ _ _
               (liftB_returns _ _ _ _ (saveSettings_returns newSettings (browser w)))).
    rewrite (bind_returns _ _ _ _ _ (setSettings_eq _ _)).
    rewrite AppNotFoundMore.startAnalytics_eq.
    cbn [fst snd browser app settings].
    destruct (AppNotFoundMore.analyticsStarted_frame newSettings
                (run (saveSettings newSettings) (browser w))) as (Hls & _).
    split_and!; [done | done | | |].
    + etrans; [|exact Hs]. apply storedSettings_ext. by rewrite Hls.
    + etrans; [|exact Hl]. by apply storedLinks_ext.
    + intros Hg. unfold analyticsStarted.
      destruct (truthy _) as [gaId|]; [|done].
      unfold run at 1 3. rewrite initGA_eq. cbn [snd].
      assert (gtag (run (saveSettings newSettings) (browser w)) = true) as ->
        by done.
      by rewrite orb_true_r.
  - unfold outcome, run, App.handleSaveSettings.
    rewrite (bind_returns _ _ _ _ _
               (liftB_returns _ _ _ _ (saveSettings_returns newSettings (browser w0)))).
    rewrite setSettings_eq. cbn [fst snd browser app settings]. done.
Qed.

End SettingsTheorems.

(** * Properties of the creation form *)

Section CreateLinkFacts.

Lemma some_slug_taken slug0 ls :
  JsArray.some
    (λ l, bool_decide (slug l = slug0) && bool_decide (Some (id l) ≠ None)) ls
  = bool_decide (slug0 ∈ slugs ls).
Proof.
  unfold JsArray.some, slugs.
  induction ls as [|x ls IH]; csimpl in *; [done |].
  rewrite IH, andb_true_r. destruct (decide (slug x = slug0)) as [Hx|Hx].
  - rewrite bool_decide_eq_true_2 by done. csimpl.
    rewrite bool_decide_eq_true_2; [done | set_solver].
  - rewrite bool_decide_eq_false_2 by done. csimpl.
    apply bool_decide_ext. set_solver.
Qed.

Lemma elem_of_slugs_replaceFirst x link ls :
  x ∈ slugs (replaceFirst link ls) → x = slug link ∨ x ∈ slugs ls.
Proof.
  unfold slugs. induction ls as [|y ls IH]; csimpl; [set_solver |].
  case_decide; csimpl; set_solver.
Qed.

Lemma slugs_replaceFirst_NoDup link ls :
  NoDup (slugs ls) → slug link ∉ slugs ls →
  NoDup (slugs (replaceFirst link ls)).
Proof.
  unfold slugs. induction ls as [|y ls IH]; csimpl; [done |].
  rewrite NoDup_cons, not_elem_of_cons. intros [Hy Hnd] [Hne Hnew].
  case_decide; csimpl; apply NoDup_cons.
  - done.
  - split; [|by apply IH].
    intros [?|?]%elem_of_slugs_replaceFirst; [congruence | done].
Qed.

Lemma slugs_upsert_NoDup link ls :
  NoDup (slugs ls) → slug link ∉ slugs ls → NoDup (slugs (upsert link ls)).
Proof.
  intros Hnd Hnew. unfold upsert. destruct (firstWithId _ _).
  - by apply slugs_replaceFirst_NoDup.
  - unfold slugs in *. csimpl. by apply NoDup_cons.
Qed.


End CreateLinkFacts.

Section CreateLinkTheorems.
Context {Mode : Type}.
Context `{HL : JSON (list ShortLink)} `{HS : JSON AppSettings}.
Context {HLL : @JSONLaws (list ShortLink) HL}.
Implicit Types w : World Mode.

Lemma handleSubmit_taken url slug0 description0 uuid now w :
  url ≠ [] → slug0 ≠ [] →
  slug0 ∈ slugs (storedLinks (browser w)) →
  handleSubmit url slug0 description0 uuid now w
  = (Return (Rejected
               (str "This short code is already taken. Try regenerating.")),
     mkWorld (logged (readErrors (browser w)) (browser w)) (app w)).
Proof.
  intros Hurl Hslug Htaken. unfold handleSubmit.
  assert (shapedLinks (browser w)) as Hshaped.
  { apply shapedLinks_nonempty. intros Hnone. rewrite Hnone in Htaken.
    by apply elem_of_nil in Htaken. }
  rewrite !bool_decide_eq_false_2 by done. cbn [orb].
  rewrite (bind_returns _ _ _ _ _
             (liftB_returns _ _ _ _
                (checkSlugExists_eq slug0 None (browser w) Hshaped))).
  by rewrite some_slug_taken, bool_decide_eq_true_2.
Qed.

Lemma handleSubmit_free url slug0 description0 uuid now w :
  shapedLinks (browser w) →
  url ≠ [] → slug0 ≠ [] →
  slug0 ∉ slugs (storedLinks (browser w)) →
  handleSubmit url slug0 description0 uuid now w
  = bind (handleCreate (newLinkOf url slug0 description0 uuid now))
      (λ _, ret (Created (newLinkOf url slug0 description0 uuid now)))
      (mkWorld (logged (readErrors (browser w)) (browser w)) (app w)).
Proof.
  intros Hshaped Hurl Hslug Hfree. unfold handleSubmit.
  rewrite !bool_decide_eq_false_2 by done. cbn [orb].
  rewrite (bind_returns _ _ _ _ _
             (liftB_returns _ _ _ _
                (checkSlugExists_eq slug0 None (browser w) Hshaped))).
  by rewrite some_slug_taken, bool_decide_eq_false_2.
Qed.

(** On a store that reads as no array, the check of the slug throws. *)
Lemma handleSubmit_ill url slug0 description0 uuid now w :
  url ≠ [] → slug0 ≠ [] →
  readLinks (browser w) = IllShaped →
  handleSubmit url slug0 description0 uuid now w = (Throw TypeError, w).
Proof.
  intros Hurl Hslug Hill. unfold handleSubmit.
  rewrite !bool_decide_eq_false_2 by done. cbn [orb].
  by rewrite (bind_throws _ _ _ _ _
                (liftB_throws _ _ _ (checkSlugExists_ill slug0 None _ Hill))).
Qed.

Lemma handleSubmit_empty url slug0 description0 uuid now w :
  url = [] ∨ slug0 = [] →
  handleSubmit url slug0 description0 uuid now w
  = (Return (Rejected (str "URL and Slug are required.")), w).
Proof.
  intros Hempty. unfold handleSubmit.
  destruct Hempty as [-> | ->]; [done |]. by rewrite orb_true_r.
Qed.

(** X25. The creation form rejects a submission without a URL or without
    a slug, and a submission whose slug a stored record already has, each
    with its own message; a rejected submission writes nothing to the
    store and leaves the state of the component as it is. *)
Theorem handleSubmit_rejects (url slug0 description0 uuid : jsstring)
    (now : Z) w :
  (url = [] ∨ slug0 = [] →
   handleSubmit url slug0 description0 uuid now w
   = (Return (Rejected (str "URL and Slug are required.")), w))
  ∧ (url ≠ [] → slug0 ≠ [] →
     slug0 ∈ slugs (storedLinks (browser w)) →
     outcome (handleSubmit url slug0 description0 uuid now) w
     = Return (Rejected
                 (str "This short code is already taken. Try regenerating."))
     ∧ localStorage (browser (run (handleSubmit url slug0 description0 uuid now) w))
       = localStorage (browser w)
     ∧ app (run (handleSubmit url slug0 description0 uuid now) w) = app w).
Proof.
  split.
  - apply handleSubmit_empty.
  - intros Hurl Hslug Htaken. unfold outcome, run.
    by rewrite handleSubmit_taken.
Qed.


(** X27. The creation form keeps the slugs of the store distinct: if no
    two stored records share a slug before a submission, none do after it,
    whatever is submitted. *)
Theorem handleSubmit_keeps_slugs_distinct
    (url slug0 description0 uuid : jsstring) (now : Z) w :
  NoDup (slugs (storedLinks (browser w))) →
  NoDup (slugs (storedLinks
                  (browser (run (handleSubmit url slug0 description0 uuid now) w)))).
Proof.
  intros Hnd.
  destruct (decide (url = [] ∨ slug0 = [])) as [Hempty|Hfull].
  - unfold run. by rewrite handleSubmit_empty.
  - assert (url ≠ [] ∧ slug0 ≠ []) as [Hurl Hslug] by tauto.
    destruct (readLinks_cases (browser w)) as [Hshaped|[Hill _]];
      [|unfold run; by rewrite handleSubmit_ill].
    destruct (decide (slug0 ∈ slugs (storedLinks (browser w)))) as [Htaken|Hfree].
    + unfold run. rewrite handleSubmit_taken by done. cbn [snd browser].
      by rewrite (storedLinks_ext (browser w) (logged _ (browser w))).
    + unfold run. rewrite handleSubmit_free by done.
      destruct (handleCreate_eq (newLinkOf url slug0 description0 uuid now)
                  (mkWorld (logged (readErrors (browser w)) (browser w)) (app w)))
        as (b' & Hcreate & Hstored & _);
        [by apply (shapedLinks_ext (browser w)) |].
      rewrite (bind_returns _ _ _ _ _ Hcreate). cbn [snd browser ret] in *.
      rewrite Hstored.
      rewrite (storedLinks_ext (browser w) (logged _ (browser w))) by done.
      by apply slugs_upsert_NoDup.
Qed.

End CreateLinkTheorems.

(** * Properties of the settings form *)

Module SettingsModalFacts.
Import SettingsModal.

Lemma startsWith_nil s : startsWith s [] = true.
Proof. by destruct s. Qed.

Lemma endsWith_slash_reverse rs :
  endsWith (reverse rs) (str "/")
  = match rs with
    | c :: _ => (c =? 47)%N
    | [] => false
    end.
Proof.
  unfold endsWith. rewrite reverse_involutive.
  change (reverse (str "/")) with [47%N].
  destruct rs as [|c rs]; [done |].
  cbn [startsWith]. by rewrite startsWith_nil, andb_true_r.
Qed.

Lemma endsWith_slash_app p s :
  s ≠ [] → endsWith (p ++ s) (str "/") = endsWith s (str "/").
Proof.
  intros Hs. unfold endsWith. rewrite reverse_app.
  change (reverse (str "/")) with [47%N].
  destruct (reverse s) as [|c rs] eqn:Hrs.
  - apply (f_equal reverse) in Hrs. rewrite reverse_involutive in Hrs. done.
  - csimpl. by rewrite !startsWith_nil.
Qed.

(** The last step of [cleanUrl]: the scheme goes in front of a text that
    is not empty and does not start with http. *)
Lemma scheme_step cleaned :
  cleaned ≠ [] →
  ∃ p,
    match cleaned with
    | [] => cleaned
    | _ :: _ =>
        if negb (startsWith cleaned (str "http")) then str "https://" ++ cleaned
        else cleaned
    end = p ++ cleaned.
Proof.
  intros Hne. destruct cleaned as [|c cleaned]; [done |].
  destruct (negb _); [by eexists | by exists []].
Qed.

Lemma cleanUrl_reverse rt :
  endsWith
    (let cleaned := reverse rt in
     let cleaned :=
       if endsWith cleaned (str "/") then dropLast cleaned else cleaned in
     match cleaned with
     | [] => cleaned
     | _ :: _ =>
         if negb (startsWith cleaned (str "http"))
         then str "https://" ++ cleaned
         else cleaned
     end) (str "/")
  = startsWith rt (str "//").
Proof.
  cbv zeta. rewrite endsWith_slash_reverse. unfold dropLast.
  rewrite reverse_involutive.
  destruct rt as [|c rt]; [done |]. cbn [tail].
  change (str "//") with [47%N; 47%N]. cbn [startsWith].
  destruct (c =? 47)%N eqn:Hc; cbn [andb].
  - destruct rt as [|d rt]; [done |].
    assert (reverse (d :: rt) ≠ []) as Hne.
    { intros Hnil%(f_equal reverse). by rewrite reverse_involutive in Hnil. }
    destruct (scheme_step _ Hne) as [p ->].
    rewrite endsWith_slash_app, endsWith_slash_reverse by done.
    cbn [startsWith]. by rewrite startsWith_nil, andb_true_r.
  - assert (reverse (c :: rt) ≠ []) as Hne.
    { intros Hnil%(f_equal reverse). by rewrite reverse_involutive in Hnil. }
    destruct (scheme_step _ Hne) as [p ->].
    by rewrite endsWith_slash_app, endsWith_slash_reverse.
Qed.

(** X28. The normalised base URL is empty or starts with http. It drops
    one trailing slash only: it ends with a slash exactly when the trimmed
    input ends with two. *)
Theorem cleanUrl_shape (customUrl : jsstring) :
  (cleanUrl customUrl = [] ∨ startsWith (cleanUrl customUrl) (str "http") = true)
  ∧ endsWith (cleanUrl customUrl) (str "/")
    = endsWith (trim customUrl) (str "//").
Proof.
  split.
  - unfold cleanUrl. cbv zeta.
    destruct (if endsWith _ _ then _ else _) as [|c cleaned]; [by left |].
    right. destruct (startsWith (c :: cleaned) (str "http")) eqn:Hs; [done |].
    reflexivity.
  - unfold cleanUrl.
    rewrite <-(reverse_involutive (trim customUrl)).
    rewrite cleanUrl_reverse. unfold endsWith.
    by rewrite !reverse_involutive.
Qed.

Section WithJSON.
Context `{HL : JSON (list ShortLink)} `{HS : JSON AppSettings}.
Context {HSL : @JSONLaws AppSettings HS}.

Lemma earlier_handleSaveSettings_eq s (w : World App.AppMode) :
  App.handleSaveSettings s w
  = (Return (),
     mkWorld (run (saveSettings s) (browser w))
       (mkAppState (mode (app w)) (links (app w)) (Shaped s)
          (detectedUrl (app w)) (isBlob (app w)) (redirectData (app w)))).
Proof.
  unfold App.handleSaveSettings.
  by rewrite (bind_returns _ _ _ _ _
                (liftB_returns _ _ _ _ (saveSettings_returns s (browser w)))).
Qed.

(** X29. Submitting the settings form stores the normalised base URL and
    makes it the base of the short links, unless it is empty: then, as
    after clearing the form, the base is the detected address. *)
Theorem settings_form_base_url (current : AppSettings) (customUrl : jsstring)
    (w : World App.AppMode) :
  outcome (handleSubmit current customUrl) w = Return ()
  ∧ customBaseUrl (storedSettings (browser (run (handleSubmit current customUrl) w)))
    = Some (cleanUrl customUrl)
  ∧ baseUrl (app (run (handleSubmit current customUrl) w))
    = Return match cleanUrl customUrl with
             | [] => detectedUrl (app w)
             | _ :: _ => cleanUrl customUrl
             end
  ∧ baseUrl (app (run (handleClear current) w)) = Return (detectedUrl (app w)).
Proof.
  unfold outcome, run, handleSubmit, handleClear.
  rewrite !earlier_handleSaveSettings_eq. cbn [fst snd browser app].
  split_and!; [done | | |done].
  - by rewrite (proj1 (saveSettings_stored _ (browser w))).
  - unfold baseUrl. cbn [settings customBaseUrl detectedUrl].
    by destruct (cleanUrl customUrl).
Qed.

End WithJSON.

End SettingsModalFacts.

(** * A record is reached through its own slug *)

Section OwnSlug.
Context {Mode : Type}.

(** A text without a percent sign decodes to itself. *)
Lemma decodeURIComponent_plain (s : jsstring) :
  37%N ∉ s → decodeURIComponent s = Some s.
Proof.
  unfold decodeURIComponent. induction s as [|c s IH]; [done |].
  rewrite not_elem_of_cons. intros [Hc Hs]. cbn [Decode].
  destruct (c =? 37)%N eqn:Heq.
  - apply N.eqb_eq in Heq. congruence.
  - by rewrite IH.
Qed.

Lemma NoDup_slugs_inj (ls : list ShortLink) x y :
  NoDup (slugs ls) → x ∈ ls → y ∈ ls → slug x = slug y → x = y.
Proof.
  unfold slugs. induction ls as [|z ls IH]; csimpl.
  - intros _ Hx. by apply elem_of_nil in Hx.
  - rewrite NoDup_cons, !elem_of_cons.
    intros [Hz Hnd] [->|Hx] [->|Hy] Heq; [done | | |by apply IH].
    + exfalso. apply Hz. rewrite Heq. by apply list_elem_of_fmap_2.
    + exfalso. apply Hz. rewrite <-Heq. by apply list_elem_of_fmap_2.
Qed.

(** X30. The slug of a record of the snapshot, when it holds no percent
    sign, resolves as a fragment to a record of the
    snapshot with that slug: to the record itself when no earlier record
    shares the slug. *)
Theorem resolve_own_slug (m : ShortLink) (snapshot : list ShortLink)
    (w : World Mode) :
  m ∈ snapshot →
  37%N ∉ slug m →
  ∃ r, resolve (slug m) snapshot w = (Return (Some r), w)
       ∧ r ∈ snapshot ∧ slug r = slug m
       ∧ (NoDup (slugs snapshot) → r = m).
Proof.
  intros Hm Hplain. unfold resolve.
  rewrite decodeURIComponent_plain by done.
  destruct (findBySlug (slug m) snapshot) as [r|] eqn:Hfind.
  - apply findBySlug_Some in Hfind as Hr. destruct Hr as [Hr Hslug].
    exists r. split_and!; [done..|].
    intros Hnd. by apply (NoDup_slugs_inj snapshot).
  - exfalso. by apply (proj1 (findBySlug_None _ _) Hfind m).
Qed.

End OwnSlug.

(** * More scenarios *)

Module MoreScenarios.
Import Sample MoreSamples.



Lemma saveLink_keeps_ids_distinct_witness :
  NoDup (ids (storedLinks storeOfTwo))
  ∧ NoDup (ids (storedLinks (run (saveLink thirdLink) storeOfTwo))).
Proof.
  assert (NoDup (ids (storedLinks storeOfTwo))) as Hnd by compute_done.
  split; [done |].
  exact (saveLink_keeps_ids_distinct thirdLink storeOfTwo Hnd).
Defined.

Lemma saveLink_twice_witness :
  storedLinks (run (saveLink thirdLink) (run (saveLink thirdLink) storeOfTwo))
  = storedLinks (run (saveLink thirdLink) storeOfTwo).
Proof. exact (saveLink_twice thirdLink storeOfTwo). Defined.


Lemma deleteLink_undoes_saveLink_witness :
  (id thirdLink ∉ ids (storedLinks storeOfTwo))
  ∧ storedLinks (run (deleteLink (id thirdLink)) (run (saveLink thirdLink) storeOfTwo))
    = storedLinks storeOfTwo.
Proof.
  assert (id thirdLink ∉ ids (storedLinks storeOfTwo)) as Hnew by compute_done.
  split; [done |].
  exact (deleteLink_undoes_saveLink thirdLink storeOfTwo Hnew).
Defined.

Lemma writes_replace_unreadable_text_witness :
  localStorage brokenStore !! STORAGE_KEY = Some (str "{]")
  ∧ str "{]" ≠ []
  ∧ JSON_parse (A := list ShortLink) (str "{]") = None
  ∧ localStorage (run (saveLink thirdLink) brokenStore) !! STORAGE_KEY
    = Some (JSON_stringify [thirdLink])
  ∧ localStorage (run (deleteLink (str "1")) brokenStore) !! STORAGE_KEY
    = Some (JSON_stringify ([] : list ShortLink))
  ∧ localStorage (run (incrementClicks (str "1")) brokenStore)
    = localStorage brokenStore.
Proof.
  assert (localStorage brokenStore !! STORAGE_KEY = Some (str "{]"))
    as Htext by (vm_compute; reflexivity).
  assert (str "{]" ≠ []) as Hne by discriminate.
  assert (JSON_parse (A := list ShortLink) (str "{]") = None)
    as Hparse by reflexivity.
  do 3 (split; [done |]).
  exact (writes_replace_unreadable_text (str "{]") thirdLink (str "1")
           brokenStore Htext Hne Hparse).
Defined.



Lemma incrementClicks_commute_witness :
  str "1" ≠ str "2"
  ∧ storedLinks (run (incrementClicks (str "1"))
                   (run (incrementClicks (str "2")) storeOfTwo))
    = storedLinks (run (incrementClicks (str "2"))
                     (run (incrementClicks (str "1")) storeOfTwo)).
Proof.
  assert (str "1" ≠ str "2") as Hne by discriminate.
  split; [done |].
  exact (incrementClicks_commute (str "1") (str "2") storeOfTwo Hne).
Defined.

Lemma settings_round_trip_witness :
  outcome getSettings (run (saveSettings measured) storeOfTwo)
  = Return (Shaped measured)
  ∧ storedLinks (run (saveSettings measured) storeOfTwo) = storedLinks storeOfTwo
  ∧ storedSettings (run (saveLink thirdLink) storeOfTwo) = storedSettings storeOfTwo
  ∧ storedSettings (run (deleteLink (str "1")) storeOfTwo)
    = storedSettings storeOfTwo
  ∧ storedSettings (run (incrementClicks (str "1")) storeOfTwo)
    = storedSettings storeOfTwo.
Proof. exact (settings_round_trip measured thirdLink (str "1") storeOfTwo). Defined.

Lemma reads_log_only_failures_witness :
  localStorage brokenStore !! STORAGE_KEY = Some (str "{]")
  ∧ str "{]" ≠ []
  ∧ JSON_parse (A := list ShortLink) (str "{]") = None
  ∧ run getLinks brokenStore = logged [str "Failed to load links"] brokenStore.
Proof.
  assert (localStorage brokenStore !! STORAGE_KEY = Some (str "{]"))
    as Htext by (vm_compute; reflexivity).
  assert (str "{]" ≠ []) as Hne by discriminate.
  assert (JSON_parse (A := list ShortLink) (str "{]") = None)
    as Hparse by reflexivity.
  do 3 (split; [done |]).
  exact (proj1 (reads_log_only_failures brokenStore) (str "{]") Htext Hne Hparse).
Defined.

Lemma initGA_effect_witness :
  str "G-1" ≠ []
  ∧ gtag brokenStore = false
  ∧ gtag (run (initGA (str "G-1")) brokenStore) = true
  ∧ headScripts (run (initGA (str "G-1")) brokenStore)
    = headScripts brokenStore ++ [gtagScript (str "G-1")]
  ∧ dataLayer (run (initGA (str "G-1")) brokenStore)
    = dataLayer brokenStore ++ [GtagJs; GtagConfig (str "G-1")].
Proof.
  assert (str "G-1" ≠ []) as Hne by discriminate.
  assert (gtag brokenStore = false) as Hg by reflexivity.
  do 2 (split; [done |]).
  exact (proj1 (proj2 (initGA_effect (str "G-1") brokenStore)) Hne Hg).
Defined.

Lemma initGA_once_witness :
  str "G-1" ≠ []
  ∧ run (initGA (str "G-2")) (run (initGA (str "G-1")) brokenStore)
    = run (initGA (str "G-1")) brokenStore.
Proof.
  assert (str "G-1" ≠ []) as Hne by discriminate.
  split; [done |].
  exact (initGA_once (str "G-1") (str "G-2") brokenStore Hne).
Defined.

Lemma trackRedirect_effect_witness :
  gtag withGtag = true
  ∧ gtag brokenStore = false
  ∧ dataLayer (run (trackRedirect (str "G-1") (str "abc") (str "https://x.com"))
                 withGtag)
    = dataLayer withGtag
      ++ [GtagEvent (str "abc") (str "https://x.com");
          GtagPageView (str "G-1") (str "abc")]
  ∧ run (trackRedirect (str "G-1") (str "abc") (str "https://x.com")) brokenStore
    = brokenStore.
Proof.
  assert (gtag withGtag = true) as Hon by reflexivity.
  assert (gtag brokenStore = false) as Hoff by reflexivity.
  do 2 (split; [done |]). split.
  - exact (proj1 (proj2 (proj2 (trackRedirect_effect (str "G-1") (str "abc")
                                   (str "https://x.com") withGtag))) Hon).
  - exact (proj1 (proj2 (trackRedirect_effect (str "G-1") (str "abc")
                           (str "https://x.com") brokenStore)) Hoff).
Defined.

Lemma initApp_no_fragment_dashboard_witness :
  shapedSettings (browser (bootstrapAt ""))
  ∧ shapedLinks (browser (bootstrapAt ""))
  ∧ substring1 (hash (browser (bootstrapAt ""))) = []
  ∧ outcome AppNotFound.initApp (bootstrapAt "") = Return ()
  ∧ mode (app (run AppNotFound.initApp (bootstrapAt ""))) = AppNotFound.DASHBOARD
  ∧ redirectData (app (run AppNotFound.initApp (bootstrapAt "")))
    = redirectData (app (bootstrapAt ""))
  ∧ timers (browser (run AppNotFound.initApp (bootstrapAt "")))
    = timers (browser (bootstrapAt ""))
  ∧ localStorage (browser (run AppNotFound.initApp (bootstrapAt "")))
    = localStorage (browser (bootstrapAt "")).
Proof.
  assert (shapedSettings (browser (bootstrapAt ""))) as Hsettings
    by (vm_compute; reflexivity).
  assert (shapedLinks (browser (bootstrapAt ""))) as Hlinks
    by (vm_compute; reflexivity).
  assert (substring1 (hash (browser (bootstrapAt ""))) = []) as Hraw
    by reflexivity.
  do 3 (split; [done |]).
  exact (AppNotFoundMore.initApp_no_fragment_dashboard (bootstrapAt "")
           Hsettings Hlinks Hraw).
Defined.

Lemma initApp_match_redirects_witness :
  shapedSettings (browser (bootstrapAt "#abc"))
  ∧ shapedLinks (browser (bootstrapAt "#abc"))
  ∧ substring1 (hash (browser (bootstrapAt "#abc"))) = str "abc"
  ∧ str "abc" ≠ []
  ∧ decodeURIComponent (str "abc") = Some (str "abc")
  ∧ findBySlug (str "abc")
      (links (app (run AppNotFound.initApp (bootstrapAt "#abc"))))
    = Some (link "1" "abc" 100 5)
  ∧ outcome AppNotFound.initApp (bootstrapAt "#abc") = Return ()
  ∧ mode (app (run AppNotFound.initApp (bootstrapAt "#abc")))
    = AppNotFound.REDIRECT_PROCESS
  ∧ redirectData (app (run AppNotFound.initApp (bootstrapAt "#abc")))
    = Some (originalUrl (link "1" "abc" 100 5), slug (link "1" "abc" 100 5))
  ∧ timers (browser (run AppNotFound.initApp (bootstrapAt "#abc")))
    = timers (browser (bootstrapAt "#abc"))
      ++ [mkTimer 150 (originalUrl (link "1" "abc" 100 5))].
Proof.
  assert (shapedSettings (browser (bootstrapAt "#abc"))) as Hsettings
    by (vm_compute; reflexivity).
  assert (shapedLinks (browser (bootstrapAt "#abc"))) as Hlinks
    by (vm_compute; reflexivity).
  assert (substring1 (hash (browser (bootstrapAt "#abc"))) = str "abc")
    as Hraw by reflexivity.
  assert (str "abc" ≠ []) as Hne by discriminate.
  assert (decodeURIComponent (str "abc") = Some (str "abc"))
    as Hdec by reflexivity.
  assert (findBySlug (str "abc")
            (links (app (run AppNotFound.initApp (bootstrapAt "#abc"))))
          = Some (link "1" "abc" 100 5)) as Hfind by (vm_compute; reflexivity).
  do 6 (split; [done |]).
  exact (AppNotFoundMore.initApp_match_redirects (bootstrapAt "#abc")
           (str "abc") (str "abc") (link "1" "abc" 100 5)
           Hsettings Hlinks Hraw Hne Hdec Hfind).
Defined.

Lemma initApp_counts_local_clicks_witness :
  (shapedSettings (browser (baselineOnlyAt "#abc"))
   ∧ shapedLinks (browser (baselineOnlyAt "#abc"))
   ∧ substring1 (hash (browser (baselineOnlyAt "#abc"))) = str "abc"
   ∧ str "abc" ≠ []
   ∧ decodeURIComponent (str "abc") = Some (str "abc")
   ∧ findBySlug (str "abc")
       (links (app (run AppNotFound.initApp (baselineOnlyAt "#abc"))))
     = Some (link "1" "abc" 100 0)
   ∧ (id (link "1" "abc" 100 0)
      ∉ ids (storedLinks (browser (baselineOnlyAt "#abc"))))
   ∧ localStorage (browser (run AppNotFound.initApp (baselineOnlyAt "#abc")))
     = localStorage (browser (baselineOnlyAt "#abc")))
  ∧ (shapedSettings (browser (bootstrapAt "#abc"))
     ∧ shapedLinks (browser (bootstrapAt "#abc"))
     ∧ substring1 (hash (browser (bootstrapAt "#abc"))) = str "abc"
     ∧ findBySlug (str "abc")
         (links (app (run AppNotFound.initApp (bootstrapAt "#abc"))))
       = Some (link "1" "abc" 100 5)
     ∧ firstWithId (str "1") (storedLinks (browser (bootstrapAt "#abc")))
       = Some (link "1" "abc" 100 5)
     ∧ - 2 ^ 53 ≤ clicks (link "1" "abc" 100 5) < 2 ^ 53
     ∧ firstWithId (str "1")
         (storedLinks (browser (run AppNotFound.initApp (bootstrapAt "#abc"))))
       = Some (addClicks 1 (link "1" "abc" 100 5))).
Proof.
  assert (str "abc" ≠ []) as Hne by discriminate.
  assert (decodeURIComponent (str "abc") = Some (str "abc"))
    as Hdec by reflexivity.
  split.
  - assert (shapedSettings (browser (baselineOnlyAt "#abc"))) as Hsettings
      by (vm_compute; reflexivity).
    assert (shapedLinks (browser (baselineOnlyAt "#abc"))) as Hlinks
      by (vm_compute; reflexivity).
    assert (substring1 (hash (browser (baselineOnlyAt "#abc"))) = str "abc")
      as Hraw by reflexivity.
    assert (findBySlug (str "abc")
              (links (app (run AppNotFound.initApp (baselineOnlyAt "#abc"))))
            = Some (link "1" "abc" 100 0)) as Hfind
      by (vm_compute; reflexivity).
    assert (id (link "1" "abc" 100 0)
            ∉ ids (storedLinks (browser (baselineOnlyAt "#abc"))))
      as Habsent by compute_done.
    do 7 (split; [done |]).
    exact (proj2 (AppNotFoundMore.initApp_counts_local_clicks
                    (baselineOnlyAt "#abc") (str "abc") (str "abc")
                    (link "1" "abc" 100 0) Hsettings Hlinks Hraw Hne Hdec Hfind)
             Habsent).
  - assert (shapedSettings (browser (bootstrapAt "#abc"))) as Hsettings
      by (vm_compute; reflexivity).
    assert (shapedLinks (browser (bootstrapAt "#abc"))) as Hlinks
      by (vm_compute; reflexivity).
    assert (substring1 (hash (browser (bootstrapAt "#abc"))) = str "abc")
      as Hraw by reflexivity.
    assert (findBySlug (str "abc")
              (links (app (run AppNotFound.initApp (bootstrapAt "#abc"))))
            = Some (link "1" "abc" 100 5)) as Hfind
      by (vm_compute; reflexivity).
    assert (firstWithId (str "1") (storedLinks (browser (bootstrapAt "#abc")))
            = Some (link "1" "abc" 100 5)) as Hr by (vm_compute; reflexivity).
    assert (- 2 ^ 53 ≤ clicks (link "1" "abc" 100 5) < 2 ^ 53) as Hrange
      by (simpl; lia).
    do 6 (split; [done |]).
    exact (proj1 (AppNotFoundMore.initApp_counts_local_clicks
                    (bootstrapAt "#abc") (str "abc") (str "abc")
                    (link "1" "abc" 100 5) Hsettings Hlinks Hraw Hne Hdec Hfind)
             (link "1" "abc" 100 5) Hr Hrange).
Defined.


Lemma earlier_initApp_routes_witness :
  shapedSettings (browser (loadingAt "#abc"))
  ∧ shapedLinks (browser (loadingAt "#abc"))
  ∧ substring1 (hash (browser (loadingAt "#abc"))) = str "abc"
  ∧ str "abc" ≠ []
  ∧ decodeURIComponent (str "abc") = Some (str "abc")
  ∧ findBySlug (str "abc") (links (app (run App.initApp (loadingAt "#abc"))))
    = Some (link "1" "abc" 100 5)
  ∧ outcome App.initApp (loadingAt "#abc") = Return ()
  ∧ mode (app (run App.initApp (loadingAt "#abc"))) = App.REDIRECTING
  ∧ redirectData (app (run App.initApp (loadingAt "#abc")))
    = Some (originalUrl (link "1" "abc" 100 5), slug (link "1" "abc" 100 5))
  ∧ timers (browser (run App.initApp (loadingAt "#abc")))
    = timers (browser (loadingAt "#abc"))
      ++ [mkTimer 800 (originalUrl (link "1" "abc" 100 5))].
Proof.
  assert (shapedSettings (browser (loadingAt "#abc"))) as Hsettings
    by (vm_compute; reflexivity).
  assert (shapedLinks (browser (loadingAt "#abc"))) as Hlinks
    by (vm_compute; reflexivity).
  assert (substring1 (hash (browser (loadingAt "#abc"))) = str "abc")
    as Hraw by reflexivity.
  assert (str "abc" ≠ []) as Hne by discriminate.
  assert (decodeURIComponent (str "abc") = Some (str "abc"))
    as Hdec by reflexivity.
  assert (findBySlug (str "abc")
            (links (app (run App.initApp (loadingAt "#abc"))))
          = Some (link "1" "abc" 100 5)) as Hfind by (vm_compute; reflexivity).
  do 6 (split; [done |]).
  exact (proj1 (proj2 (proj2 (AppMore.earlier_initApp_routes (loadingAt "#abc")
                                (str "abc") Hraw) Hsettings Hlinks))
           (str "abc") (link "1" "abc" 100 5) Hne Hdec Hfind).
Defined.




Lemma handleSaveSettings_saves_witness :
  settings (app (run (AppNotFound.handleSaveSettings measured) dashboard))
  = Shaped measured
  ∧ storedSettings (browser (run (AppNotFound.handleSaveSettings measured) dashboard))
    = measured
  ∧ storedSettings (browser (run (App.handleSaveSettings measured) earlierDashboard))
    = measured.
Proof.
  destruct (handleSaveSettings_saves measured dashboard earlierDashboard)
    as [(_ & Hstate & Hstore & _) (_ & _ & Hearlier & _)].
  split; [exact Hstate |]. split; [exact Hstore | exact Hearlier].
Defined.

Lemma handleSubmit_rejects_witness :
  str "x.com" ≠ []
  ∧ str "abc" ≠ []
  ∧ str "abc" ∈ slugs (storedLinks (browser dashboard))
  ∧ outcome (handleSubmit (str "x.com") (str "abc") [] (str "9") 500) dashboard
    = Return (Rejected
                (str "This short code is already taken. Try regenerating."))
  ∧ localStorage
      (browser (run (handleSubmit (str "x.com") (str "abc") [] (str "9") 500)
                  dashboard))
    = localStorage (browser dashboard)
  ∧ app (run (handleSubmit (str "x.com") (str "abc") [] (str "9") 500) dashboard)
    = app dashboard.
Proof.
  assert (str "x.com" ≠ []) as Hurl by discriminate.
  assert (str "abc" ≠ []) as Hslug by discriminate.
  assert (str "abc" ∈ slugs (storedLinks (browser dashboard))) as Htaken
    by compute_done.
  do 3 (split; [done |]).
  exact (proj2 (handleSubmit_rejects (str "x.com") (str "abc") [] (str "9") 500
                  dashboard) Hurl Hslug Htaken).
Defined.


Lemma handleSubmit_keeps_slugs_distinct_witness :
  NoDup (slugs (storedLinks (browser dashboard)))
  ∧ NoDup (slugs (storedLinks
                    (browser (run (handleSubmit (str "x.com") (str "fresh") []
                                     (str "9") 500) dashboard)))).
Proof.
  assert (NoDup (slugs (storedLinks (browser dashboard)))) as Hnd
    by compute_done.
  split; [done |].
  exact (handleSubmit_keeps_slugs_distinct (str "x.com") (str "fresh") []
           (str "9") 500 dashboard Hnd).
Defined.

Lemma settings_form_base_url_witness :
  customBaseUrl
    (storedSettings
       (browser (run (SettingsModal.handleSubmit emptySettings (str " go.example/ "))
                   earlierDashboard)))
  = Some (SettingsModal.cleanUrl (str " go.example/ "))
  ∧ baseUrl (app (run (SettingsModal.handleClear emptySettings) earlierDashboard))
    = Return (detectedUrl (app earlierDashboard)).
Proof.
  destruct (SettingsModalFacts.settings_form_base_url emptySettings
              (str " go.example/ ") earlierDashboard)
    as (_ & Hstored & _ & Hclear).
  split; [exact Hstored | exact Hclear].
Defined.

Lemma resolve_own_slug_witness :
  link "2" "a b" 200 0 ∈ sharedSlug
  ∧ (37%N ∉ slug (link "2" "a b" 200 0))
  ∧ ∃ r, resolve (slug (link "2" "a b" 200 0)) sharedSlug dashboard
         = (Return (Some r), dashboard)
         ∧ r ∈ sharedSlug ∧ slug r = slug (link "2" "a b" 200 0)
         ∧ (NoDup (slugs sharedSlug) → r = link "2" "a b" 200 0).
Proof.
  assert (link "2" "a b" 200 0 ∈ sharedSlug) as Hin by compute_done.
  assert (37%N ∉ slug (link "2" "a b" 200 0)) as Hplain by compute_done.
  do 2 (split; [done |]).
  exact (resolve_own_slug (link "2" "a b" 200 0) sharedSlug dashboard Hin Hplain).
Defined.

End MoreScenarios.
